(** * Conformer energies notebook: collation and per-molecule energy report

    A shallow embedding of the two code cells of
    [examples/conformer_energies/conformer_energies.ipynb] that carry logic:
    the conformer collation loop (notebook lines 64-80) and the
    per-molecule minimisation and report loop (lines 134-186).

    Python objects are shared and mutated in place, so [Molecule] objects
    live in a store indexed by locations; the lists [loaded_molecules] and
    [molecules] hold locations.  The numerical collaborators (OpenMM, RDKit,
    the force field, float formatting) and the file system's naming of files
    form the interface [Collaborators]. *)

From Stdlib Require Import Ascii String.
From stdpp Require Import gmap strings pretty list fin_maps.

(** * Definitions *)

(** ** Python strings *)

(** [sep.join(fields)] *)
Fixpoint join (sep : string) (fields : list string) : string :=
  match fields with
  | [] => ""
  | [f] => f
  | f :: rest => f +:+ sep +:+ join sep rest
  end.

(** [''.join(parts)]: the text produced by successive [write] calls. *)
Fixpoint concat_str (parts : list string) : string :=
  match parts with
  | [] => ""
  | p :: rest => p +:+ concat_str rest
  end.

(** Number of occurrences of a character in a string. *)
Fixpoint count_char (c : ascii) (s : string) : nat :=
  match s with
  | EmptyString => 0
  | String a s' => (if decide (a = c) then 1 else 0) + count_char c s'
  end.

Definition comma : ascii := ","%char.
Definition newline : ascii := Ascii.ascii_of_nat 10.
Definition nl : string := String newline EmptyString.

(** ** Names and lines of the report files *)

(** Line 153. *)
Definition header : list string :=
  ["Conformer"; "Initial PE (kcal/mol)"; "Minimized PE (kcal/mol)";
   "RMS between initial and minimized conformer (Angstrom)"].

(** Line 175. *)
Definition sdf_path (molecule_name : string) (index : nat) : string :=
  molecule_name +:+ "_conf" +:+ pretty index +:+ "_minimized.sdf".

(** Line 182. *)
Definition csv_path (molecule_name : string) : string :=
  molecule_name +:+ ".csv".

(** Line 184: [','.join(line)+'\n'] *)
Definition csv_line (line : list string) : string := join "," line +:+ nl.

(** The text of the report of a molecule (lines 182-184). *)
Definition csv_text (output : list (list string)) : string :=
  concat_str (map csv_line output).

(** ** Data model *)

(** Locations of [Molecule] objects in the store. *)
Definition loc : Type := nat.

(** The fields of a [Molecule] object the notebook reads or writes, over
    the types of chemical graphs and of coordinate arrays.  [_conformers] is
    [None] until the first conformer is added, and the notebook resets it to
    [None] on the working copy. *)
Record Molecule (Graph Coords : Type) : Type := mkMolecule {
  name : string;
  graph : Graph;
  _conformers : option (list Coords)
}.
Global Arguments mkMolecule {Graph Coords} name graph _conformers.
Global Arguments name {Graph Coords} m.
Global Arguments graph {Graph Coords} m.
Global Arguments _conformers {Graph Coords} m.

(** ** External collaborators

    What the notebook calls and does not define: the toolkit's molecule
    graph and its equality, OpenMM, RDKit's aligner, Python's number
    formatting, and the file system's resolution of paths. *)
Class Collaborators : Type := {
  (** The chemical graph of a molecule (atoms, bonds, connectivity). *)
  Graph : Type;
  (** One conformer: a coordinate array with units. *)
  Coords : Type;
  (** An energy with units, as returned by [getPotentialEnergy]. *)
  Quantity : Type;
  (** A Python float. *)
  Float : Type;
  (** The state of an [openmm.app.Simulation] and its context. *)
  Simulation : Type;
  (** The structural equality test on graphs behind [Molecule.__eq__]. *)
  graph_eq : Graph → Graph → bool;
  (** [Topology._networkx_to_hill_formula(molecule.to_networkx())] *)
  hill_formula : Graph → string;
  (** Lines 142-149: topology, parametrised system, integrator, platform and
      the [Simulation] built from them. *)
  create_simulation : Molecule Graph Coords → Simulation;
  (** [simulation.context.setPositions(conformer)] *)
  setPositions : Simulation → Coords → Simulation;
  (** [simulation.minimizeEnergy()] *)
  minimizeEnergy : Simulation → Simulation;
  (** [getState(...).getPotentialEnergy()] *)
  getPotentialEnergy : Simulation → Quantity;
  (** [getState(...).getPositions()], converted to an array in nanometers
      (line 163). *)
  getPositions : Simulation → Coords;
  (** [rdMolAlign.AlignMolConformers(mol.to_rdkit(), RMSlist=rmslist)]: the
      list it leaves in [rmslist]. *)
  AlignMolConformers : Molecule Graph Coords → list Float;
  (** [x / unit.kilocalories_per_mole] *)
  kcal_per_mole : Quantity → Float;
  (** [f'{x:.3f}'] *)
  fmt3 : Float → string;
  (** The progress line of line 176. *)
  fmt_progress : nat → nat → Float → Float → Float → string;
  (** The file a path names, given as its canonical path, when the path
      can be opened for writing; [None] when opening it for writing raises
      (a directory of the path is missing, the name holds a NUL byte or is
      too long, the path names a directory or a read-only file).  Two paths name one file
      exactly when they resolve to the same canonical path.  The notebook
      creates and removes no directory, so this does not change along a
      run. *)
  resolve_path : string → option string
}.

Section Model.

Context {C : Collaborators}.

Local Abbreviation Molecule := (Molecule Graph Coords).

(** The record after [m.name = s]. *)
Definition set_name (m : Molecule) (s : string) : Molecule :=
  mkMolecule s (graph m) (_conformers m).

(** The record after [m._conformers = cs]. *)
Definition set_conformers (m : Molecule) (cs : option (list Coords)) : Molecule :=
  mkMolecule (name m) (graph m) cs.

(** What is stored at a path: a structure file written by [to_file] holds
    the molecule as it was when written; the report is text. *)
Inductive File : Type :=
| SdfFile (m : Molecule)
| TextFile (s : string).

(** Calls received by the simulation handle, in the order they are made. *)
Inductive SimCall : Type :=
| CallSetPositions (c : Coords)
| CallGetState (getEnergy getPositions : bool)
| CallMinimizeEnergy.

(** The mutable world of the notebook: the object store, the content of the
    files of the file system under their canonical paths, the log of file
    writes with the paths as the notebook gave them, the log of calls on the
    simulation handle and the printed lines (all logs oldest first). *)
Record World : Type := mkWorld {
  heap : gmap loc Molecule;
  files : gmap string File;
  written : list (string * File);
  calls : list SimCall;
  stdout : list string
}.

(** The world with another store. *)
Definition with_heap (w : World) (h : gmap loc Molecule) : World :=
  mkWorld h (files w) (written w) (calls w) (stdout w).

(** ** Outcomes and the notebook monad *)

(** [FileError] is what opening a file for writing raises when it cannot:
    an [OSError] such as [FileNotFoundError], or [ValueError] for a NUL byte.
    [InvalidRef] does not exist in Python, where a reference always points
    to an object; it is the outcome of reading a location that the store
    does not hold. *)
Inductive exn : Type := IndexError | TypeError | FileError | InvalidRef.

(** A cell returns a value, raises, or never returns. *)
Inductive outcome (A : Type) : Type :=
| Ok (a : A) (w : World)
| Raise (e : exn) (w : World)
| Loops.
Global Arguments Ok {A} a w.
Global Arguments Raise {A} e w.
Global Arguments Loops {A}.

(** A computation of the notebook: it runs in a world and ends in an
    outcome. *)
Definition M (A : Type) : Type := World → outcome A.

Definition ret {A} (a : A) : M A := λ w, Ok a w.

Definition bind {A B} (m : M A) (f : A → M B) : M B :=
  λ w, match m w with
       | Ok a w' => f a w'
       | Raise e w' => Raise e w'
       | Loops => Loops
       end.

Definition raise {A} (e : exn) : M A := λ w, Raise e w.

Definition loops {A} : M A := λ _, Loops.

Notation "x <- m ;; k" := (bind m (λ x, k))
  (at level 100, m at next level, right associativity, only parsing).
Notation "m ;;; k" := (bind m (λ _, k))
  (at level 100, right associativity, only parsing).

(** [for x in xs: s = body(s, x)] *)
Fixpoint for_loop {A S} (xs : list A) (body : S → A → M S) (s : S) : M S :=
  match xs with
  | [] => ret s
  | x :: xs' => s' <- body s x ;; for_loop xs' body s'
  end.

(** ** Python list indexing *)

(** [xs[0]] *)
Definition index_first {A} (xs : list A) : M A :=
  match xs with
  | [] => raise IndexError
  | x :: _ => ret x
  end.

(** [xs[-1]] *)
Definition index_last {A} (xs : list A) : M A :=
  match last xs with
  | None => raise IndexError
  | Some x => ret x
  end.

(** ** The [Molecule] methods the notebook calls *)

(** Reading the object a reference points to. *)
Definition get_mol (l : loc) : M Molecule :=
  λ w, match heap w !! l with
       | Some m => Ok m w
       | None => Raise InvalidRef w
       end.

(** Writing the fields of the object a reference points to. *)
Definition put_mol (l : loc) (m : Molecule) : M unit :=
  λ w, Ok () (with_heap w (<[l := m]> (heap w))).

(** Modelled from the spec: [Molecule.__eq__] is not part of the notebook.
    The spec makes equality of records structural: two records are equal
    when they describe the same chemical graph, whatever their names and
    conformers; the test on graphs is the collaborator [graph_eq]. *)
Definition mol_eq (a b : loc) : M bool :=
  ma <- get_mol a ;;
  mb <- get_mol b ;;
  ret (graph_eq (graph ma) (graph mb)).

(** Modelled from the spec: [Molecule.add_conformer] is not part of the
    notebook.  It appends the coordinates to the record's conformers,
    starting the list when there is none, and returns the new count. *)
Definition add_conformer (l : loc) (coordinates : Coords) : M nat :=
  m <- get_mol l ;;
  let cs := default [] (_conformers m) ++ [coordinates] in
  put_mol l (set_conformers m (Some cs)) ;;;
  ret (length cs).

(** Modelled from the spec: the [conformers] property is not part of the
    notebook.  It gives the record's ordered sequence of conformers: the
    list object itself, or [None] when the record has none. *)
Definition conformers (l : loc) : M (option (list Coords)) :=
  m <- get_mol l ;; ret (_conformers m).

(** The number of conformers of a record value. *)
Definition n_conformers_of (m : Molecule) : nat :=
  match _conformers m with
  | None => 0
  | Some cs => length cs
  end.

(** Modelled from the spec: the [n_conformers] property is not part of the
    notebook.  It is the length of the record's sequence of conformers. *)
Definition n_conformers (l : loc) : M nat :=
  m <- get_mol l ;; ret (n_conformers_of m).

(** Iterating over [None] raises [TypeError]. *)
Definition iter {A} (xs : option (list A)) : M (list A) :=
  match xs with
  | None => raise TypeError
  | Some l => ret l
  end.

(** [print(line)] *)
Definition print (line : string) : M unit :=
  λ w, Ok () (mkWorld (heap w) (files w) (written w) (calls w) (stdout w ++ [line])).

(** ** The conformer collation cell (lines 64-80) *)

(** What [Molecule.from_file] returns: one molecule or a list of them. *)
Inductive Loaded : Type :=
| OneMolecule (l : loc)
| MoleculeList (ls : list loc).

(** Lines 64-65: [if type(loaded_molecules) is not list: ...] *)
Definition cast_to_list (loaded : Loaded) : list loc :=
  match loaded with
  | OneMolecule l => [l]
  | MoleculeList ls => ls
  end.

(** Lines 72-76, the body of the loop over [loaded_molecules[1:]].
    [molecule.conformers] is the list object of [molecule]: when [molecule]
    and [molecules[-1]] are one object with a non-empty list, the inner loop
    appends to the list it iterates over and never ends. *)
Definition collate_step (molecules : list loc) (molecule : loc) : M (list loc) :=
  last_molecule <- index_last molecules ;;
  same <- mol_eq molecule last_molecule ;;
  if same : bool then
    cs <- conformers molecule ;;
    cs <- iter cs ;;
    if decide (molecule = last_molecule ∧ cs ≠ []) then loops
    else
      for_loop cs (λ _ conformer,
        target <- index_last molecules ;;
        add_conformer target conformer ;;;
        ret ()) () ;;;
      ret molecules
  else ret (molecules ++ [molecule]).

(** Lines 70-76. *)
Definition collate (loaded_molecules : list loc) : M (list loc) :=
  first <- index_first loaded_molecules ;;
  for_loop (drop 1 loaded_molecules) collate_step [first].

(** [sum([mol.n_conformers for mol in molecules])] *)
Definition sum_n_conformers (molecules : list loc) : M nat :=
  for_loop molecules (λ acc mol, n <- n_conformers mol ;; ret (acc + n)) 0.

(** Lines 64-80: returns [molecules], [n_molecules] and [n_conformers]. *)
Definition collate_cell (loaded : Loaded) : M (list loc * nat * nat) :=
  let loaded_molecules := cast_to_list loaded in
  molecules <- collate loaded_molecules ;;
  let n_molecules := length molecules in
  n_conformers <- sum_n_conformers molecules ;;
  print (pretty n_molecules +:+ " unique molecule(s) loaded, with "
         +:+ pretty n_conformers +:+ " total conformers") ;;;
  ret (molecules, n_molecules, n_conformers).

(** ** The minimisation and report cell (lines 134-186) *)

(** Recording a call on the simulation handle. *)
Definition log_call (c : SimCall) : M unit :=
  λ w, Ok () (mkWorld (heap w) (files w) (written w) (calls w ++ [c]) (stdout w)).

(** Opening [path] for writing and writing [f]: it raises when the path
    cannot be opened, and nothing is written then; otherwise it replaces
    what the file named by the path held. *)
Definition write_file (path : string) (f : File) : M unit :=
  λ w, match resolve_path path with
       | None => Raise FileError w
       | Some file =>
           Ok () (mkWorld (heap w) (<[file := f]> (files w))
                          (written w ++ [(path, f)]) (calls w) (stdout w))
       end.

(** Modelled from the spec: [Molecule.to_file] is not part of the notebook.
    [mol.to_file(path, file_format='sdf')] persists the molecule, with the
    conformers it has at that moment, as a structure file at [path]. *)
Definition to_file (l : loc) (path : string) : M unit :=
  m <- get_mol l ;; write_file path (SdfFile m).

(** Modelled from the spec: the copy constructor [Molecule(other)] is not
    part of the notebook.  It makes a new object holding a copy of [other];
    the notebook calls it "a temporary copy of the molecule". *)
Definition Molecule_copy (other : loc) : M loc :=
  m <- get_mol other ;;
  λ w, let l := fresh (dom (heap w)) in
       Ok l (with_heap w (<[l := m]> (heap w))).

(** [mol._conformers = None] *)
Definition reset_conformers (l : loc) : M unit :=
  m <- get_mol l ;; put_mol l (set_conformers m None).

(** [enumerate(xs)], counting from [start]. *)
Fixpoint enumerate_from {A} (start : nat) (xs : list A) : list (nat * A) :=
  match xs with
  | [] => []
  | x :: xs' => (start, x) :: enumerate_from (S start) xs'
  end.

(** [enumerate(xs)] *)
Definition enumerate {A} (xs : list A) : list (nat * A) := enumerate_from 0 xs.

(** Lines 155-180, the body of the loop over [enumerate(molecule.conformers)].
    The loop state is the simulation handle and [output]. *)
Definition report_step (molecule mol_copy : loc)
    (st : Simulation * list (list string)) (ic : nat * Coords)
    : M (Simulation * list (list string)) :=
  let simulation := st.1 in
  let output := st.2 in
  let conformer_index := ic.1 in
  let conformer := ic.2 in
  log_call (CallSetPositions conformer) ;;;
  let simulation := setPositions simulation conformer in
  log_call (CallGetState true false) ;;;
  let orig_potential := getPotentialEnergy simulation in
  log_call CallMinimizeEnergy ;;;
  let simulation := minimizeEnergy simulation in
  log_call (CallGetState true true) ;;;
  let min_state := simulation in
  let min_potential := getPotentialEnergy min_state in
  let min_coords := getPositions min_state in
  reset_conformers mol_copy ;;;
  add_conformer mol_copy conformer ;;;
  add_conformer mol_copy min_coords ;;;
  rdmol <- get_mol mol_copy ;;
  let rmslist := AlignMolConformers rdmol in
  minimization_rms <- index_first rmslist ;;
  reset_conformers mol_copy ;;;
  add_conformer mol_copy min_coords ;;;
  m <- get_mol molecule ;;
  to_file mol_copy (sdf_path (name m) (conformer_index + 1)) ;;;
  n <- n_conformers molecule ;;
  print (fmt_progress (conformer_index + 1) n (kcal_per_mole orig_potential)
           (kcal_per_mole min_potential) minimization_rms) ;;;
  ret (simulation,
       output ++ [[pretty (conformer_index + 1);
                   fmt3 (kcal_per_mole orig_potential);
                   fmt3 (kcal_per_mole min_potential);
                   fmt3 minimization_rms]]).

(** Lines 136-186, the body of the loop over [molecules]; returns [output]. *)
Definition report_molecule (molecule : loc) : M (list (list string)) :=
  m <- get_mol molecule ;;
  (if decide (name m = "")
   then put_mol molecule (set_name m (hill_formula (graph m)))
   else ret ()) ;;;
  m <- get_mol molecule ;;
  print (name m +:+ " : " +:+ pretty (n_conformers_of m) +:+ " conformers") ;;;
  mol_copy <- Molecule_copy molecule ;;
  m <- get_mol molecule ;;
  let simulation := create_simulation m in
  print ("Parametrizing " +:+ name m
         +:+ " (may take a moment to calculate charges)") ;;;
  print "Conformer         Initial PE        Minimized PE        RMS between initial and minimized conformer" ;;;
  let output := [header] in
  cs <- conformers molecule ;;
  cs <- iter cs ;;
  st <- for_loop (enumerate cs) (report_step molecule mol_copy)
                 (simulation, output) ;;
  let output := st.2 in
  m <- get_mol molecule ;;
  write_file (csv_path (name m)) (TextFile (concat_str (map csv_line output))) ;;;
  ret output.

(** Lines 134-186. *)
Definition report_cell (molecules : list loc) : M unit :=
  for_loop molecules (λ _ molecule, report_molecule molecule ;;; ret ()) ().

(** ** The collator as the specification describes it *)

(** The conformers of a record value, none when the list is [None]. *)
Definition conformer_list (m : Molecule) : list Coords :=
  default [] (_conformers m).

(** "Append all of its conformers to that record." *)
Definition spec_merge (last_record r : Molecule) : Molecule :=
  set_conformers last_record (Some (conformer_list last_record ++ conformer_list r)).

(** The single left-to-right pass of the specification over record values:
    [done ++ [current]] is the output sequence so far and [current] its last
    record.  A subsequent record structurally equal to [current] is merged
    into it; any other record is appended as a new record. *)
Fixpoint spec_collate_from (done : list Molecule) (current : Molecule)
    (rest : list Molecule) : list Molecule :=
  match rest with
  | [] => done ++ [current]
  | r :: rest' =>
      if graph_eq (graph r) (graph current)
      then spec_collate_from done (spec_merge current r) rest'
      else spec_collate_from (done ++ [current]) r rest'
  end.

(** "Initialize the output sequence with the first input record." *)
Definition spec_collate (first : Molecule) (rest : list Molecule) : list Molecule :=
  spec_collate_from [] first rest.

(** The distinct molecules of a sequence of graphs in the order in which
    each first appears: a graph is kept unless it is structurally equal to
    one kept before it. *)
Fixpoint first_appearances_from (seen gs : list Graph) : list Graph :=
  match gs with
  | [] => []
  | g :: gs' =>
      if existsb (graph_eq g) seen
      then first_appearances_from seen gs'
      else g :: first_appearances_from (seen ++ [g]) gs'
  end.

(** The distinct molecules of [gs] in their order of first appearance. *)
Definition first_appearances (gs : list Graph) : list Graph :=
  first_appearances_from [] gs.

(** ** Predicates on worlds *)

(** The store holds the record [m] at [l]. *)
Definition holds (w : World) (l : loc) (m : Molecule) : Prop :=
  heap w !! l = Some m.

(** Two worlds differ at most in their store. *)
Definition same_io (w w' : World) : Prop :=
  files w' = files w ∧ written w' = written w ∧
  calls w' = calls w ∧ stdout w' = stdout w.

(** A record that is ready to be collated: stored, with a conformer list. *)
Definition loaded_at (w : World) (l : loc) (m : Molecule) : Prop :=
  holds w l m ∧ is_Some (_conformers m).

(** ** The report: what one conformer contributes *)

(** The handle after line 157 for one conformer. *)
Definition minimized (sim : Simulation) (c : Coords) : Simulation :=
  minimizeEnergy (setPositions sim c).

(** The calls of lines 155-158. *)
Definition step_calls (c : Coords) : list SimCall :=
  [CallSetPositions c; CallGetState true false; CallMinimizeEnergy;
   CallGetState true true].

(** The working copy as it is handed to the aligner (line 167). *)
Definition rdmol_of (nm : string) (g : Graph) (sim : Simulation) (c : Coords)
    : Molecule :=
  mkMolecule nm g (Some [c; getPositions (minimized sim c)]).

(** The working copy as it is written to file (line 175). *)
Definition minimized_mol (nm : string) (g : Graph) (sim : Simulation) (c : Coords)
    : Molecule :=
  mkMolecule nm g (Some [getPositions (minimized sim c)]).

(** The row of lines 177-180. *)
Definition energy_row (index : nat) (sim : Simulation) (c : Coords) (rms : Float)
    : list string :=
  [pretty index;
   fmt3 (kcal_per_mole (getPotentialEnergy (setPositions sim c)));
   fmt3 (kcal_per_mole (getPotentialEnergy (minimized sim c)));
   fmt3 rms].

(** [rows] and [ws] are the rows appended and the files written by the loop
    over the conformers [cs], entered at index [i] with the handle [sim],
    for a molecule named [nm] with graph [g]. *)
Fixpoint loop_result (nm : string) (g : Graph) (i : nat) (sim : Simulation)
    (cs : list Coords) (rows : list (list string)) (ws : list (string * File))
    : Prop :=
  match cs, rows, ws with
  | [], [], [] => True
  | c :: cs', row :: rows', wr :: ws' =>
      (∃ rms, head (AlignMolConformers (rdmol_of nm g sim c)) = Some rms
              ∧ row = energy_row (i + 1) sim c rms)
      ∧ wr = (sdf_path nm (i + 1), SdfFile (minimized_mol nm g sim c))
      ∧ loop_result nm g (S i) (minimized sim c) cs' rows' ws'
  | _, _, _ => False
  end.

(** The file system after one write at a path. *)
Definition apply_write (fs : gmap string File) (pf : string * File)
    : gmap string File :=
  match resolve_path pf.1 with
  | None => fs
  | Some file => <[file := pf.2]> fs
  end.

(** The file system after a sequence of writes. *)
Definition apply_writes (fs : gmap string File) (ws : list (string * File))
    : gmap string File :=
  fold_left apply_write ws fs.

(** The paths of the report of a molecule named [nm] with [n] conformers
    can all be opened for writing. *)
Definition paths_open (nm : string) (n : nat) : Prop :=
  is_Some (resolve_path (csv_path nm))
  ∧ ∀ k, 1 ≤ k ≤ n → is_Some (resolve_path (sdf_path nm k)).

(** The paths of the report of a molecule named [nm] with [n] conformers
    name pairwise different files. *)
Definition paths_apart (nm : string) (n : nat) : Prop :=
  (∀ j k, 1 ≤ j ≤ n → 1 ≤ k ≤ n →
     resolve_path (sdf_path nm j) = resolve_path (sdf_path nm k) → j = k)
  ∧ ∀ k, 1 ≤ k ≤ n → resolve_path (sdf_path nm k) ≠ resolve_path (csv_path nm).

(** Every path that a report can build from the name [nm] can be opened
    for writing. *)
Definition name_open (nm : string) : Prop :=
  is_Some (resolve_path (csv_path nm))
  ∧ ∀ k, is_Some (resolve_path (sdf_path nm k)).

(** The aligner returns a value for a molecule with two conformers. *)
Definition aligner_ok : Prop :=
  ∀ mol a b, _conformers mol = Some [a; b] → AlignMolConformers mol ≠ [].

(** The name a record has once line 137 has run. *)
Definition report_name (m : Molecule) : string :=
  if decide (name m = "") then hill_formula (graph m) else name m.

(** The record as it stands after lines 136-137. *)
Definition renamed (m : Molecule) : Molecule := set_name m (report_name m).

(** A stored record that the report can take: it has a conformer list, and
    the paths of its report can be opened. *)
Definition reportable (w : World) (l : loc) (m : Molecule) : Prop :=
  loaded_at w l m ∧ paths_open (report_name m) (n_conformers_of m).

(** Every record of [w] is still there in [w'], as it was or renamed. *)
Definition kept (w w' : World) : Prop :=
  ∀ l m, holds w l m → holds w' l m ∨ holds w' l (renamed m).

(** The float format writes neither a comma nor a line break. *)
Definition plain_format : Prop :=
  ∀ x, count_char comma (fmt3 x) = 0 ∧ count_char newline (fmt3 x) = 0.

(** ** Further notions used to describe the two cells *)

(** No graph of [gs] is structurally equal to [prev] or to the graph just
    before it. *)
Fixpoint adjacent_distinct_from (prev : Graph) (gs : list Graph) : bool :=
  match gs with
  | [] => true
  | g :: gs' => negb (graph_eq g prev) && adjacent_distinct_from g gs'
  end.

(** No graph of [gs] is structurally equal to the graph just before it; the
    test is the one of line 72, the later record on the left. *)
Definition adjacent_distinct (gs : list Graph) : bool :=
  match gs with
  | [] => true
  | g :: gs' => adjacent_distinct_from g gs'
  end.

(** From [w] to [w'] every stored record keeps its name and its graph, and
    its conformers are still there, in order, possibly followed by more. *)
Definition grows (w w' : World) : Prop :=
  ∀ l m, holds w l m →
    ∃ m', holds w' l m' ∧ name m' = name m ∧ graph m' = graph m
          ∧ ∃ more, conformer_list m' = conformer_list m ++ more.

(** A write of a structure file. *)
Definition is_sdf (pf : string * File) : bool :=
  match pf.2 with
  | SdfFile _ => true
  | TextFile _ => false
  end.

(** A write of a text file. *)
Definition is_text (pf : string * File) : bool := negb (is_sdf pf).

(** The code cells of the notebook in their order: the collation cell, then
    the report cell on the [molecules] it leaves.  The cell in between only
    loads the force field, which [create_simulation] stands for. *)
Definition notebook (loaded : Loaded) : M unit :=
  result <- collate_cell loaded ;;
  let molecules := result.1.1 in
  report_cell molecules.

(** A row of the report and a progress line that show the same conformer:
    the same index, energies and deviation, the line for a molecule of [n]
    conformers. *)
Definition same_conformer (n : nat) (row : list string) (line : string) : Prop :=
  ∃ (k : nat) e0 e1 rms,
    row = [pretty k; fmt3 e0; fmt3 e1; fmt3 rms]
    ∧ line = fmt_progress k n e0 e1 rms.

End Model.

Notation "x <- m ;; k" := (bind m (λ x, k))
  (at level 100, m at next level, right associativity, only parsing).
Notation "m ;;; k" := (bind m (λ _, k))
  (at level 100, right associativity, only parsing).

(** ** A deterministic double of the collaborators

    Graphs, coordinates, energies and the handle are numbers: the handle
    holds the loaded coordinate, minimising halves it, the energy of a handle
    is its coordinate, and the aligner returns the distance of every further
    conformer to the first. *)

Definition dbl_AlignMolConformers (m : Molecule nat nat) : list nat :=
  match _conformers m with
  | Some (a :: rest) => map (λ b, a - b) rest
  | _ => []
  end.

(** The double's file system is one flat directory that holds two read-only
    files: a leading [./] is dropped, and a path with a further [/], with no
    name left, or naming a read-only file cannot be opened for writing. *)
Definition strip_dot_slash (p : string) : string :=
  match p with
  | String a (String b q) =>
      if decide (a = "."%char ∧ b = "/"%char) then q else p
  | _ => p
  end.

Definition dbl_resolve_path (p : string) : option string :=
  let q := strip_dot_slash p in
  if decide (q = "") then None
  else if decide (q = "locked.csv") then None
  else if decide (q = "half_conf2_minimized.sdf") then None
  else if decide (count_char "/"%char q = 0) then Some q else None.

Definition dbl : Collaborators := {|
  Graph := nat;
  Coords := nat;
  Quantity := nat;
  Float := nat;
  Simulation := nat;
  graph_eq := Nat.eqb;
  hill_formula := λ g, "C" +:+ pretty g;
  create_simulation := λ _, 0;
  setPositions := λ _ c, c;
  minimizeEnergy := Nat.div2;
  getPotentialEnergy := λ sim, sim;
  getPositions := λ sim, sim;
  AlignMolConformers := dbl_AlignMolConformers;
  kcal_per_mole := λ e, e;
  fmt3 := λ x, pretty x +:+ ".000";
  fmt_progress := λ i n _ _ _, pretty i +:+ " / " +:+ pretty n;
  resolve_path := dbl_resolve_path
|}.

(** Two records of molecule 1 and one of molecule 2, one conformer each. *)
Definition rec_A1 : Molecule nat nat := mkMolecule "A" 1 (Some [10]).
Definition rec_A2 : Molecule nat nat := mkMolecule "A" 1 (Some [20]).
Definition rec_B1 : Molecule nat nat := mkMolecule "B" 2 (Some [30]).

(** A world with the given store, no file, and nothing logged. *)
Definition world_of (h : gmap loc (Molecule nat nat)) : World (C := dbl) :=
  mkWorld (C := dbl) h ∅ [] [] [].

(** The store holds A1, A2, B1 at locations 0, 1, 2. *)
Definition world_AAB : World (C := dbl) :=
  world_of (<[0 := rec_A1]> (<[1 := rec_A2]> (<[2 := rec_B1]> ∅))).

(** The store holds A1, B1, A2 at locations 0, 1, 2. *)
Definition world_ABA : World (C := dbl) :=
  world_of (<[0 := rec_A1]> (<[1 := rec_B1]> (<[2 := rec_A2]> ∅))).

(** A collated record without a name, with two conformers. *)
Definition rec_unnamed : Molecule nat nat := mkMolecule "" 7 (Some [8; 6]).

Definition world_unnamed : World (C := dbl) := world_of (<[0 := rec_unnamed]> ∅).

(** Records that already carry several conformers: two of molecule 1, then
    one of molecule 2, at locations 0, 1, 2. *)
Definition rec_M1 : Molecule nat nat := mkMolecule "M" 1 (Some [10; 11]).
Definition rec_M2 : Molecule nat nat := mkMolecule "M" 1 (Some [20]).
Definition rec_N1 : Molecule nat nat := mkMolecule "N" 2 (Some [30; 31; 32]).

Definition world_multi : World (C := dbl) :=
  world_of (<[0 := rec_M1]> (<[1 := rec_M2]> (<[2 := rec_N1]> ∅))).

(** The unnamed record at another location, beside another record and an
    unrelated file. *)
Definition world_other : World (C := dbl) :=
  mkWorld (C := dbl) (<[2 := rec_unnamed]> (<[0 := rec_A1]> ∅))
    (<["notes.txt" := TextFile "kept"]> ∅) [] [] ["earlier output"].

(** A record whose name begins with [./] and a record of the name that is
    left without it: their report paths name the same files. *)
Definition rec_dot_A : Molecule nat nat := mkMolecule "./A" 1 (Some [10]).

Definition world_alias : World (C := dbl) :=
  world_of (<[0 := rec_dot_A]> (<[2 := rec_A2]> ∅)).

(** A record whose second structure file is read-only in the double's
    directory, and a record whose CSV file is. *)
Definition rec_half : Molecule nat nat := mkMolecule "half" 3 (Some [10; 20; 30]).
Definition rec_locked : Molecule nat nat := mkMolecule "locked" 4 (Some [10; 20]).

Definition world_shut : World (C := dbl) :=
  world_of (<[0 := rec_half]> (<[1 := rec_locked]> (<[2 := rec_B1]> ∅))).

(** * Proofs *)

(** Projections of a world that has just been built are read off at once,
    so that the worlds along a run stay small. *)
Ltac flat :=
  unfold with_heap; cbn [heap files written calls stdout conformer_list
                         _conformers set_conformers default name graph].

Section Proofs.

Context {C : Collaborators}.

Local Abbreviation Molecule := (Molecule Graph Coords).

(** ** Stepping through the monad *)

Lemma Forall2_impl_elem {A B} (P Q : A → B → Prop) (l : list A) (k : list B) :
  Forall2 P l k → (∀ x y, x ∈ l → P x y → Q x y) → Forall2 Q l k.
Proof.
  induction 1 as [|x y l k Hxy _ IH]; intros Himp; constructor.
  - apply Himp; [left|done].
  - apply IH. intros x' y' Hin. apply Himp. by right.
Qed.

Lemma bind_Ok {A B} (m : M A) (f : A → M B) w a w' :
  m w = Ok a w' → bind m f w = f a w'.
Proof. unfold bind. by intros ->. Qed.

Lemma get_mol_Ok l w m : holds w l m → get_mol l w = Ok m w.
Proof. unfold holds, get_mol. by intros ->. Qed.

Lemma index_last_snoc {A} (xs : list A) (x : A) w :
  index_last (xs ++ [x]) w = Ok x w.
Proof. unfold index_last. by rewrite last_snoc. Qed.

Lemma same_io_refl w : same_io w w.
Proof. by repeat split. Qed.

Lemma same_io_trans w1 w2 w3 : same_io w1 w2 → same_io w2 w3 → same_io w1 w3.
Proof. unfold same_io. intros (?&?&?&?) (?&?&?&?). repeat split; congruence. Qed.

Lemma same_io_with_heap w h : same_io w (with_heap w h).
Proof. by repeat split. Qed.

Lemma add_conformer_Ok l c w m :
  holds w l m →
  add_conformer l c w =
    Ok (length (conformer_list m ++ [c]))
       (with_heap w (<[l := set_conformers m (Some (conformer_list m ++ [c]))]> (heap w))).
Proof.
  intros Hl. unfold add_conformer.
  rewrite (bind_Ok _ _ _ _ _ (get_mol_Ok _ _ _ Hl)). reflexivity.
Qed.

Lemma n_conformers_Ok l w m :
  holds w l m → n_conformers l w = Ok (n_conformers_of m) w.
Proof.
  intros Hl. unfold n_conformers.
  rewrite (bind_Ok _ _ _ _ _ (get_mol_Ok _ _ _ Hl)). reflexivity.
Qed.

Lemma conformers_Ok l w m :
  holds w l m → conformers l w = Ok (_conformers m) w.
Proof.
  intros Hl. unfold conformers.
  rewrite (bind_Ok _ _ _ _ _ (get_mol_Ok _ _ _ Hl)). reflexivity.
Qed.

Lemma reset_conformers_Ok l w m :
  holds w l m →
  reset_conformers l w = Ok () (with_heap w (<[l := set_conformers m None]> (heap w))).
Proof.
  intros Hl. unfold reset_conformers.
  rewrite (bind_Ok _ _ _ _ _ (get_mol_Ok _ _ _ Hl)). reflexivity.
Qed.

(** ** The collator *)

(** The inner loop of lines 73-74 appends the conformers, in order, to the
    last record of [molecules] and touches nothing else. *)
Lemma add_conformers_Ok (molecules : list loc) (target : loc) (cs : list Coords) :
  ∀ w m,
    holds w target m → is_Some (_conformers m) →
    ∃ w',
      for_loop cs (λ (_ : unit) conformer,
        t <- index_last (molecules ++ [target]) ;;
        add_conformer t conformer ;;;
        ret ()) () w = Ok () w'
      ∧ holds w' target (set_conformers m (Some (conformer_list m ++ cs)))
      ∧ (∀ l, l ≠ target → heap w' !! l = heap w !! l)
      ∧ same_io w w'.
Proof.
  induction cs as [|c cs IH]; intros w m Hm [cs0 Hcs0].
  - exists w. simpl. repeat split; try done.
    unfold holds, conformer_list. rewrite Hcs0, app_nil_r. simpl.
    rewrite Hm. f_equal. destruct m; simpl in *; by subst.
  - simpl.
    erewrite bind_Ok; last first.
    { erewrite bind_Ok; last apply index_last_snoc.
      erewrite bind_Ok; last by apply add_conformer_Ok.
      reflexivity. }
    set (m1 := set_conformers m (Some (conformer_list m ++ [c]))).
    set (w1 := with_heap w (<[target:=m1]> (heap w))).
    destruct (IH w1 m1) as (w' & Hrun & Hh & Hfr & Hio).
    { unfold holds, w1. simpl. by rewrite lookup_insert_eq. }
    { by eexists. }
    exists w'. split; [exact Hrun|]. split; [|split].
    + unfold m1 in Hh. unfold conformer_list in *. simpl in Hh.
      by rewrite <- app_assoc in Hh.
    + intros l Hl. rewrite (Hfr l Hl). unfold w1. simpl.
      by rewrite lookup_insert_ne.
    + eapply same_io_trans; [apply (same_io_with_heap w)|exact Hio].
Qed.

Lemma mol_eq_Ok a b w ma mb :
  holds w a ma → holds w b mb →
  mol_eq a b w = Ok (graph_eq (graph ma) (graph mb)) w.
Proof.
  intros Ha Hb. unfold mol_eq.
  rewrite (bind_Ok _ _ _ _ _ (get_mol_Ok _ _ _ Ha)).
  rewrite (bind_Ok _ _ _ _ _ (get_mol_Ok _ _ _ Hb)). reflexivity.
Qed.

(** One iteration of the loop when the record equals the last output
    record: its conformers move to that record, [molecules] is unchanged. *)
Lemma collate_step_merge done cur_loc cur r rv w :
  r ≠ cur_loc →
  holds w cur_loc cur → is_Some (_conformers cur) →
  loaded_at w r rv →
  graph_eq (graph rv) (graph cur) = true →
  ∃ w',
    collate_step (done ++ [cur_loc]) r w = Ok (done ++ [cur_loc]) w'
    ∧ holds w' cur_loc (spec_merge cur rv)
    ∧ (∀ l, l ≠ cur_loc → heap w' !! l = heap w !! l)
    ∧ same_io w w'.
Proof.
  intros Hne Hcur Hcs [Hr [cs Hrcs]] Heq.
  destruct (add_conformers_Ok done cur_loc cs w cur Hcur Hcs)
    as (w' & Hrun & Hh & Hfr & Hio).
  exists w'. split; [|split; [|split]]; try done.
  - unfold collate_step.
    erewrite bind_Ok; last apply index_last_snoc.
    erewrite bind_Ok; last by apply mol_eq_Ok.
    rewrite Heq.
    erewrite bind_Ok; last by apply conformers_Ok.
    rewrite Hrcs. simpl.
    erewrite bind_Ok; last reflexivity.
    destruct (decide (r = cur_loc ∧ cs ≠ [])) as [[? _]|_]; [done|].
    erewrite bind_Ok; last exact Hrun. reflexivity.
  - unfold spec_merge. unfold conformer_list at 2. by rewrite Hrcs.
Qed.

(** One iteration of the loop when the record differs from the last output
    record: it becomes the last output record and nothing is written. *)
Lemma collate_step_append done cur_loc cur r rv w :
  holds w cur_loc cur → holds w r rv →
  graph_eq (graph rv) (graph cur) = false →
  collate_step (done ++ [cur_loc]) r w = Ok ((done ++ [cur_loc]) ++ [r]) w.
Proof.
  intros Hcur Hr Heq. unfold collate_step.
  erewrite bind_Ok; last apply index_last_snoc.
  erewrite bind_Ok; last by apply mol_eq_Ok.
  by rewrite Heq.
Qed.

(** The loop of lines 71-76 computes, in the store, the pass that the
    specification describes on record values. *)
Lemma collate_loop_refines (rest : list loc) :
  ∀ (rest_vals : list Molecule) (done : list loc) (done_vals : list Molecule)
    (cur_loc : loc) (cur : Molecule) (w : World),
    NoDup (done ++ cur_loc :: rest) →
    Forall2 (holds w) done done_vals →
    holds w cur_loc cur → is_Some (_conformers cur) →
    Forall2 (loaded_at w) rest rest_vals →
    ∃ out w',
      for_loop rest collate_step (done ++ [cur_loc]) w
        = Ok (done ++ cur_loc :: out) w'
      ∧ sublist out rest
      ∧ Forall2 (holds w') (done ++ cur_loc :: out)
                (spec_collate_from done_vals cur rest_vals)
      ∧ (∀ l, l ≠ cur_loc → l ∉ rest → heap w' !! l = heap w !! l)
      ∧ same_io w w'.
Proof.
  induction rest as [|r rest IH];
    intros rest_vals done done_vals cur_loc cur w Hnd Hdone Hcur Hcs Hrest.
  - apply Forall2_nil_inv_l in Hrest as ->.
    exists [], w. simpl. split; [done|]. split; [done|].
    split; [|split; [done|apply same_io_refl]].
    apply Forall2_app; [done|]. by constructor.
  - apply Forall2_cons_inv_l in Hrest as (rv & rvs & [Hr Hrcs] & Hrest & ->).
    apply NoDup_app in Hnd as (Hnd1 & Hnd2 & Hnd3).
    apply NoDup_cons in Hnd3 as [Hc1 Hnd3].
    apply NoDup_cons in Hnd3 as [Hr1 Hnd3].
    assert (r ≠ cur_loc) as Hne by (intros ->; apply Hc1; left).
    simpl. destruct (graph_eq (graph rv) (graph cur)) eqn:Heq.
    + destruct (collate_step_merge done cur_loc cur r rv w) as
        (w1 & Hstep & Hh1 & Hfr1 & Hio1); try done.
      erewrite bind_Ok; last exact Hstep.
      destruct (IH rvs done done_vals cur_loc (spec_merge cur rv) w1)
        as (out & w' & Hrun & Hsub & Hout & Hfr & Hio).
      * apply NoDup_app. split; [done|]. split.
        -- intros x Hx Hx'. apply (Hnd2 x Hx).
           apply elem_of_cons in Hx' as [->|Hx']; [left|by do 2 right].
        -- apply NoDup_cons. split; [|done].
           intros Hin. apply Hc1. by right.
      * eapply Forall2_impl_elem; [exact Hdone|].
        intros l m Hl Hm. unfold holds. rewrite Hfr1; [done|].
        intros ->. apply (Hnd2 cur_loc Hl). left.
      * done.
      * by eexists.
      * eapply Forall2_impl_elem; [exact Hrest|].
        intros l m Hl [Hm Hc]. split; [|done]. unfold holds.
        rewrite Hfr1; [done|]. intros ->. apply Hc1. by right.
      * exists out, w'. split; [done|]. split; [by apply sublist_cons|].
        split; [done|]. split; [|by eapply same_io_trans].
        intros l Hl1 Hl2. rewrite Hfr, Hfr1; try done.
        intros Hin. apply Hl2. by right.
    + erewrite bind_Ok; last by eapply collate_step_append.
      destruct (IH rvs (done ++ [cur_loc]) (done_vals ++ [cur]) r rv w)
        as (out & w' & Hrun & Hsub & Hout & Hfr & Hio).
      * rewrite <- app_assoc. simpl.
        apply NoDup_app. split; [done|]. split; [done|].
        apply NoDup_cons. split; [done|]. by apply NoDup_cons.
      * apply Forall2_app; [done|]. by constructor.
      * done.
      * done.
      * done.
      * exists (r :: out), w'.
        replace (done ++ cur_loc :: r :: out)
          with ((done ++ [cur_loc]) ++ r :: out) by (by rewrite <- app_assoc).
        split; [done|]. split; [by apply sublist_skip|].
        split; [done|]. split; [|done].
        intros l Hl1 Hl2. apply Hfr.
        -- intros ->. apply Hl2. left.
        -- intros Hin. apply Hl2. by right.
Qed.

(** ** Properties of the pass on record values *)

Lemma spec_collate_from_done done current rest :
  spec_collate_from done current rest = done ++ spec_collate_from [] current rest.
Proof.
  revert done current. induction rest as [|r rest IH]; intros done current; simpl.
  - done.
  - destruct (graph_eq (graph r) (graph current)).
    + apply IH.
    + rewrite (IH (done ++ [current])), (IH [current]). by rewrite <- app_assoc.
Qed.

(** No conformer is dropped, duplicated or reordered. *)
Lemma spec_collate_conformers current rest :
  concat (map conformer_list (spec_collate_from [] current rest))
  = conformer_list current ++ concat (map conformer_list rest).
Proof.
  revert current. induction rest as [|r rest IH]; intros current; simpl.
  - done.
  - destruct (graph_eq (graph r) (graph current)).
    + rewrite IH. unfold spec_merge, conformer_list at 1. simpl.
      by rewrite <- app_assoc.
    + rewrite spec_collate_from_done. simpl. by rewrite IH.
Qed.

Lemma n_conformers_of_length m : n_conformers_of m = length (conformer_list m).
Proof. unfold n_conformers_of, conformer_list. by destruct (_conformers m). Qed.

Lemma sum_n_conformers_of_length ms :
  sum_list (map n_conformers_of ms) = length (concat (map conformer_list ms)).
Proof.
  induction ms as [|m ms IH]; simpl; [done|].
  by rewrite length_app, IH, n_conformers_of_length.
Qed.

Lemma single_conformers_length ms :
  Forall (λ m, ∃ c, _conformers m = Some [c]) ms →
  length (concat (map conformer_list ms)) = length ms.
Proof.
  induction 1 as [|m ms [c Hc] _ IH]; simpl; [done|].
  rewrite length_app, IH. unfold conformer_list. by rewrite Hc.
Qed.

Section FirstAppearances.

Hypothesis graph_eq_trans :
  ∀ a b c, graph_eq a b = true → graph_eq b c = true → graph_eq a c = true.

Lemma existsb_snoc_same g seen : existsb (graph_eq g) seen = false →
  ∀ g', graph_eq g' g = true → existsb (graph_eq g') (seen ++ [g]) = true.
Proof.
  intros _ g' Hg'. rewrite existsb_app. simpl. rewrite Hg'.
  by rewrite orb_true_r.
Qed.

Lemma existsb_trans g g' seen :
  graph_eq g' g = true → existsb (graph_eq g) seen = true →
  existsb (graph_eq g') seen = true.
Proof.
  intros Hg. rewrite !existsb_exists. intros (s & Hin & Hs).
  exists s. split; [done|]. by eapply graph_eq_trans.
Qed.

(** Merging a record into the last output record never changes which
    molecule appears first, second, and so on. *)
Lemma spec_collate_first_appearances rest :
  ∀ current seen,
    first_appearances_from seen (map graph (spec_collate_from [] current rest))
    = first_appearances_from seen (graph current :: map graph rest).
Proof.
  induction rest as [|r rest IH]; intros current seen; [done|].
  cbn [spec_collate_from].
  destruct (graph_eq (graph r) (graph current)) eqn:Heq.
  - rewrite IH. cbn [spec_merge set_conformers graph map first_appearances_from].
    destruct (existsb (graph_eq (graph current)) seen) eqn:Hseen.
    + by rewrite (existsb_trans _ _ _ Heq Hseen).
    + by rewrite (existsb_snoc_same _ _ Hseen _ Heq).
  - rewrite spec_collate_from_done. simpl app.
    cbn [map first_appearances_from].
    destruct (existsb (graph_eq (graph current)) seen); by rewrite IH.
Qed.

End FirstAppearances.

(** [sum([mol.n_conformers for mol in molecules])] reads the store only. *)
Lemma sum_n_conformers_Ok (molecules : list loc) :
  ∀ (records : list Molecule) (acc : nat) (w : World),
    Forall2 (holds w) molecules records →
    for_loop molecules (λ acc mol, n <- n_conformers mol ;; ret (acc + n)) acc w
    = Ok (acc + sum_list (map n_conformers_of records)) w.
Proof.
  induction molecules as [|l ls IH]; intros records acc w Hrec.
  - apply Forall2_nil_inv_l in Hrec as ->. simpl. unfold ret. f_equal. lia.
  - apply Forall2_cons_inv_l in Hrec as (m & ms & Hm & Hms & ->). simpl.
    erewrite bind_Ok; last first.
    { erewrite bind_Ok; last by apply n_conformers_Ok. reflexivity. }
    rewrite (IH ms _ _ Hms). f_equal. lia.
Qed.

(** The collation loop on a non-empty list of distinct loaded records. *)
Lemma collate_refines (first : loc) (rest : list loc)
    (r0 : Molecule) (rs : list Molecule) (w : World) :
  NoDup (first :: rest) →
  Forall2 (loaded_at w) (first :: rest) (r0 :: rs) →
  ∃ out w',
    collate (first :: rest) w = Ok (first :: out) w'
    ∧ sublist out rest
    ∧ Forall2 (holds w') (first :: out) (spec_collate r0 rs)
    ∧ (∀ l, l ∉ first :: rest → heap w' !! l = heap w !! l)
    ∧ same_io w w'.
Proof.
  intros Hnd Hall.
  apply Forall2_cons_1 in Hall as [[H0 Hc0] Hrest].
  destruct (collate_loop_refines rest rs [] [] first r0 w)
    as (out & w' & Hrun & Hsub & Hout & Hfr & Hio); try done.
  exists out, w'. split; [|split; [done|split; [done|split; [|done]]]].
  - unfold collate. simpl. erewrite bind_Ok; last reflexivity.
    rewrite drop_0. exact Hrun.
  - intros l Hl. apply Hfr.
    + intros ->. apply Hl. left.
    + intros Hin. apply Hl. by right.
Qed.

(** ** Claims about the collator *)

(** C1 (as amended): for every non-empty sequence of distinct loaded
    records with one conformer each, the collation cell returns; the total
    number of conformers it counts in the output equals the number of input
    records; the conformers of the output records, read in order, are the
    input conformers in input order (none dropped, duplicated or moved); the
    output records are input records in their input order; and the distinct
    molecules first appear in the output in the same order as they first
    appear in the input. *)
Theorem collate_keeps_conformers_and_order
    (loaded_molecules : list loc) (records : list Molecule) (w : World) :
  loaded_molecules ≠ [] →
  NoDup loaded_molecules →
  Forall2 (holds w) loaded_molecules records →
  Forall (λ m, ∃ c, _conformers m = Some [c]) records →
  (∀ a b c, graph_eq a b = true → graph_eq b c = true → graph_eq a c = true) →
  ∃ molecules out_records w',
    collate_cell (MoleculeList loaded_molecules) w
      = Ok (molecules, length molecules, length loaded_molecules) w'
    ∧ Forall2 (holds w') molecules out_records
    ∧ sum_list (map n_conformers_of out_records) = length loaded_molecules
    ∧ concat (map conformer_list out_records) = concat (map conformer_list records)
    ∧ sublist molecules loaded_molecules
    ∧ first_appearances (map graph out_records) = first_appearances (map graph records).
Proof.
  intros Hne Hnd Hrec Hone Htrans.
  destruct loaded_molecules as [|first rest]; [done|].
  apply Forall2_cons_inv_l in Hrec as (r0 & rs & H0 & Hrs & ->).
  assert (Forall2 (loaded_at w) (first :: rest) (r0 :: rs)) as Hall.
  { assert (Forall2 (holds w) (first :: rest) (r0 :: rs)) as Hh by by constructor.
    clear -Hh Hone. induction Hh as [|l m ls ms Hl _ IH]; [constructor|].
    apply Forall_cons in Hone as [[c Hc] Hone]. constructor; [|by apply IH].
    split; [done|]. by eexists. }
  destruct (collate_refines first rest r0 rs w Hnd Hall)
    as (out & w' & Hrun & Hsub & Hout & _ & _).
  assert (sum_list (map n_conformers_of (spec_collate r0 rs))
          = length (first :: rest)) as Hsum.
  { rewrite sum_n_conformers_of_length. unfold spec_collate.
    rewrite spec_collate_conformers.
    change (conformer_list r0 ++ concat (map conformer_list rs))
      with (concat (map conformer_list (r0 :: rs))).
    rewrite (single_conformers_length (r0 :: rs) Hone). simpl.
    by rewrite (Forall2_length _ _ _ Hrs). }
  eexists (first :: out), (spec_collate r0 rs),
    (mkWorld (heap w') (files w') (written w') (calls w') (stdout w' ++ [_])).
  split; [|split; [exact Hout|split; [exact Hsum|split; [|split]]]].
  - unfold collate_cell. cbn [cast_to_list].
    erewrite bind_Ok; last exact Hrun.
    erewrite bind_Ok; last by apply sum_n_conformers_Ok.
    rewrite Hsum. reflexivity.
  - unfold spec_collate. by rewrite spec_collate_conformers.
  - by apply sublist_skip.
  - unfold first_appearances, spec_collate.
    by rewrite spec_collate_first_appearances.
Qed.

(** C2: the collation loop is the single left-to-right pass of the
    specification: on distinct loaded records the output records are those
    of [spec_collate] and nothing but the store changes; for [A1, A2, B1]
    with A2 equal to A1 and B1 different the output is two records, A1
    holding both conformers and then B1; for [A1, B1, A2] with B1 in between
    the output is the three records, and the world is unchanged. *)
Theorem collate_is_adjacent_pass :
  (∀ first rest r0 rs w,
     NoDup (first :: rest) →
     Forall2 (loaded_at w) (first :: rest) (r0 :: rs) →
     ∃ molecules w',
       collate (first :: rest) w = Ok molecules w'
       ∧ Forall2 (holds w') molecules (spec_collate r0 rs)
       ∧ (∀ l, l ∉ first :: rest → heap w' !! l = heap w !! l)
       ∧ same_io w w')
  ∧ (∀ a1 a2 b1 A1 A2 B1 c1 c2 c3 w,
       NoDup [a1; a2; b1] →
       holds w a1 A1 → holds w a2 A2 → holds w b1 B1 →
       _conformers A1 = Some [c1] → _conformers A2 = Some [c2] →
       _conformers B1 = Some [c3] →
       graph_eq (graph A2) (graph A1) = true →
       graph_eq (graph B1) (graph A1) = false →
       ∃ w',
         collate [a1; a2; b1] w = Ok [a1; b1] w'
         ∧ holds w' a1 (mkMolecule (name A1) (graph A1) (Some [c1; c2]))
         ∧ holds w' b1 B1)
  ∧ (∀ a1 b1 a2 A1 B1 A2 w,
       holds w a1 A1 → holds w b1 B1 → holds w a2 A2 →
       graph_eq (graph B1) (graph A1) = false →
       graph_eq (graph A2) (graph B1) = false →
       collate [a1; b1; a2] w = Ok [a1; b1; a2] w).
Proof.
  split; [|split].
  - intros first rest r0 rs w Hnd Hall.
    destruct (collate_refines first rest r0 rs w Hnd Hall)
      as (out & w' & Hrun & _ & Hout & Hfr & Hio).
    by exists (first :: out), w'.
  - intros a1 a2 b1 A1 A2 B1 c1 c2 c3 w Hnd Ha1 Ha2 Hb1 Hc1 Hc2 Hc3 Heq Hne.
    apply NoDup_cons in Hnd as [Hin1 Hnd].
    apply NoDup_cons in Hnd as [Hin2 _].
    assert (a2 ≠ a1) as Hne21 by (intros ->; apply Hin1; left).
    assert (b1 ≠ a1) as Hne31 by (intros ->; apply Hin1; right; left).
    destruct (collate_step_merge [] a1 A1 a2 A2 w)
      as (w1 & Hstep & Hh1 & Hfr1 & _);
      [done|done|rewrite Hc1; by eexists|split; [done|rewrite Hc2; by eexists]
      |done|].
    assert (holds w1 b1 B1) as Hb1' by (unfold holds; by rewrite Hfr1).
    exists w1. split; [|split; [|done]].
    + unfold collate. simpl. erewrite bind_Ok; last reflexivity.
      erewrite bind_Ok; last exact Hstep.
      erewrite bind_Ok;
        last by apply (collate_step_append [] a1 (spec_merge A1 A2) b1 B1).
      reflexivity.
    + unfold spec_merge, conformer_list in Hh1. by rewrite Hc1, Hc2 in Hh1.
  - intros a1 b1 a2 A1 B1 A2 w Ha1 Hb1 Ha2 Hn1 Hn2.
    unfold collate. simpl. erewrite bind_Ok; last reflexivity.
    erewrite bind_Ok; last by apply (collate_step_append [] a1 A1 b1 B1).
    erewrite bind_Ok; last by apply (collate_step_append [a1] b1 B1 a2 A2).
    reflexivity.
Qed.

(** C3 (as amended): on an empty input sequence the collator raises
    [IndexError] at [loaded_molecules[0]]; it returns no output sequence,
    and the world is left as it was. *)
Theorem collate_empty_raises (w : World) :
  collate [] w = Raise IndexError w
  ∧ collate_cell (MoleculeList []) w = Raise IndexError w.
Proof. split; reflexivity. Qed.

(** The collation cell on a single stored record, given as it is or in a
    one-element list. *)
Lemma collate_cell_single (loaded : Loaded) (l : loc) (m : Molecule) (w : World) :
  cast_to_list loaded = [l] → holds w l m →
  collate_cell loaded w
  = Ok ([l], 1, n_conformers_of m)
       (mkWorld (heap w) (files w) (written w) (calls w)
          (stdout w ++ [pretty 1 +:+ " unique molecule(s) loaded, with "
                        +:+ pretty (n_conformers_of m) +:+ " total conformers"])).
Proof.
  intros Hcast Hl. unfold collate_cell. rewrite Hcast.
  erewrite bind_Ok; last reflexivity.
  erewrite bind_Ok; last first.
  { unfold sum_n_conformers. cbn [for_loop].
    erewrite bind_Ok; last first.
    { erewrite bind_Ok; last by apply n_conformers_Ok. reflexivity. }
    reflexivity. }
  reflexivity.
Qed.

(** C8: a single loaded molecule is cast to a one-element list before the
    collation.  On a stored record the collation cell returns the list of
    that one record, the count 1 and the record's number of conformers,
    prints its summary line and changes nothing else, exactly as it does on
    the one-element list; the report cell then runs over that one record. *)
Theorem single_molecule_is_cast_to_list (l : loc) (m : Molecule) (w : World) :
  holds w l m →
  ∃ w',
    w' = mkWorld (heap w) (files w) (written w) (calls w)
           (stdout w ++ [pretty 1 +:+ " unique molecule(s) loaded, with "
                         +:+ pretty (n_conformers_of m) +:+ " total conformers"])
    ∧ cast_to_list (OneMolecule l) = [l]
    ∧ collate_cell (OneMolecule l) w = Ok ([l], 1, n_conformers_of m) w'
    ∧ collate_cell (MoleculeList [l]) w = Ok ([l], 1, n_conformers_of m) w'
    ∧ notebook (OneMolecule l) w = report_cell [l] w'
    ∧ notebook (MoleculeList [l]) w = report_cell [l] w'.
Proof.
  intros Hl. eexists. split; [reflexivity|]. split; [reflexivity|].
  split; [by apply collate_cell_single|].
  split; [by apply collate_cell_single|].
  split; unfold notebook.
  - by erewrite bind_Ok; last by apply (collate_cell_single _ l m).
  - by erewrite bind_Ok; last by apply (collate_cell_single _ l m).
Qed.

(** ** The report loop *)

Lemma holds_insert_eq w l x : holds (with_heap w (<[l := x]> (heap w))) l x.
Proof. unfold holds. simpl. apply lookup_insert_eq. Qed.

Lemma holds_insert_ne w l x l' m :
  l' ≠ l → holds w l' m → holds (with_heap w (<[l := x]> (heap w))) l' m.
Proof. intros Hne Hl. unfold holds. simpl. by rewrite lookup_insert_ne. Qed.

Lemma index_first_Ok {A} (x : A) (xs : list A) w : index_first (x :: xs) w = Ok x w.
Proof. reflexivity. Qed.

Lemma bind_Raise {A B} (m : M A) (f : A → M B) w e w' :
  m w = Raise e w' → bind m f w = Raise e w'.
Proof. unfold bind. by intros ->. Qed.

Lemma write_file_Ok path file f w :
  resolve_path path = Some file →
  write_file path f w
  = Ok () (mkWorld (heap w) (<[file := f]> (files w))
                   (written w ++ [(path, f)]) (calls w) (stdout w)).
Proof. unfold write_file. by intros ->. Qed.

Lemma write_file_Raise path f w :
  resolve_path path = None → write_file path f w = Raise FileError w.
Proof. unfold write_file. by intros ->. Qed.

(** One iteration of the loop of lines 154-180 up to the writing of the
    structure file: the world reached and the deviation computed. *)
Lemma report_step_to_file (l lc : loc) (m mck : Molecule) (i : nat)
    (sim : Simulation) (output : list (list string)) (c : Coords) (w : World) :
  l ≠ lc → aligner_ok →
  holds w l m → holds w lc mck →
  ∃ rms,
    head (AlignMolConformers (rdmol_of (name mck) (graph mck) sim c)) = Some rms
    ∧ report_step l lc (sim, output) (i, c) w
      = bind (write_file (sdf_path (name m) (i + 1))
                (SdfFile (minimized_mol (name mck) (graph mck) sim c)))
          (λ _,
            n <- n_conformers l ;;
            print (fmt_progress (i + 1) n
                     (kcal_per_mole (getPotentialEnergy (setPositions sim c)))
                     (kcal_per_mole (getPotentialEnergy (minimized sim c)))
                     rms) ;;;
            ret (minimized sim c, output ++ [energy_row (i + 1) sim c rms]))
          (mkWorld
             (<[lc := minimized_mol (name mck) (graph mck) sim c]>
                (<[lc := set_conformers mck None]>
                   (<[lc := rdmol_of (name mck) (graph mck) sim c]>
                      (<[lc := set_conformers mck (Some [c])]>
                         (<[lc := set_conformers mck None]> (heap w))))))
             (files w) (written w) (calls w ++ step_calls c) (stdout w)).
Proof.
  intros Hne Halign Hl Hlc.
  destruct (AlignMolConformers (rdmol_of (name mck) (graph mck) sim c))
    as [|rms rmslist] eqn:Hrms.
  { by apply (Halign _ c (getPositions (minimized sim c))) in Hrms. }
  assert (∀ (h : gmap loc Molecule) x, <[lc := x]> h !! l = h !! l) as Hframe
    by (intros h x; by rewrite lookup_insert_ne).
  exists rms. split; [done|].
  unfold report_step. cbn [fst snd].
  do 4 (erewrite bind_Ok; last reflexivity). flat.
  erewrite bind_Ok; last by apply (reset_conformers_Ok lc _ mck). flat.
  erewrite bind_Ok; last (apply add_conformer_Ok; apply lookup_insert_eq). flat.
  erewrite bind_Ok; last (apply add_conformer_Ok; apply lookup_insert_eq). flat.
  erewrite bind_Ok; last (apply get_mol_Ok; apply lookup_insert_eq).
  erewrite bind_Ok; last first.
  { change (AlignMolConformers _)
      with (AlignMolConformers (rdmol_of (name mck) (graph mck) sim c)).
    rewrite Hrms. apply index_first_Ok. }
  erewrite bind_Ok; last (eapply reset_conformers_Ok; apply lookup_insert_eq).
  flat.
  erewrite bind_Ok; last (apply add_conformer_Ok; apply lookup_insert_eq). flat.
  erewrite bind_Ok; last first.
  { apply get_mol_Ok. unfold holds. flat. rewrite !Hframe. exact Hl. }
  unfold to_file at 1. unfold bind at 1 2.
  unfold get_mol at 1. flat. rewrite lookup_insert_eq.
  rewrite <- !app_assoc. reflexivity.
Qed.

(** One iteration of the loop of lines 154-180 when the structure file can
    be opened. *)
Lemma report_step_Ok (l lc : loc) (m mck : Molecule) (i : nat)
    (sim : Simulation) (output : list (list string)) (c : Coords) (w : World)
    (file : string) :
  l ≠ lc → aligner_ok →
  holds w l m → holds w lc mck →
  resolve_path (sdf_path (name m) (i + 1)) = Some file →
  ∃ rms w',
    report_step l lc (sim, output) (i, c) w
      = Ok (minimized sim c, output ++ [energy_row (i + 1) sim c rms]) w'
    ∧ head (AlignMolConformers (rdmol_of (name mck) (graph mck) sim c)) = Some rms
    ∧ written w' = written w ++
        [(sdf_path (name m) (i + 1),
          SdfFile (minimized_mol (name mck) (graph mck) sim c))]
    ∧ files w' = <[file :=
                    SdfFile (minimized_mol (name mck) (graph mck) sim c)]> (files w)
    ∧ calls w' = calls w ++ step_calls c
    ∧ stdout w' = stdout w ++
        [fmt_progress (i + 1) (n_conformers_of m)
           (kcal_per_mole (getPotentialEnergy (setPositions sim c)))
           (kcal_per_mole (getPotentialEnergy (minimized sim c))) rms]
    ∧ (∀ l', l' ≠ lc → heap w' !! l' = heap w !! l')
    ∧ holds w' lc (minimized_mol (name mck) (graph mck) sim c).
Proof.
  intros Hne Halign Hl Hlc Hfile.
  destruct (report_step_to_file l lc m mck i sim output c w Hne Halign Hl Hlc)
    as (rms & Hrms & ->).
  assert (∀ (h : gmap loc Molecule) x, <[lc := x]> h !! l = h !! l) as Hframe
    by (intros h x; by rewrite lookup_insert_ne).
  exists rms. eexists. split.
  - erewrite bind_Ok; last by apply write_file_Ok. flat.
    erewrite bind_Ok; last first.
    { apply n_conformers_Ok. unfold holds. flat. rewrite !Hframe. exact Hl. }
    erewrite bind_Ok; last reflexivity. flat.
    reflexivity.
  - split; [done|]. flat. split; [done|]. split; [done|]. split; [done|].
    split; [done|]. split.
    + intros l' Hl'. by rewrite !lookup_insert_ne.
    + unfold holds. flat. by rewrite lookup_insert_eq.
Qed.

(** One iteration of the loop of lines 154-180 when the structure file
    cannot be opened: [to_file] raises after the four calls on the handle,
    and nothing is written or printed. *)
Lemma report_step_Raise (l lc : loc) (m mck : Molecule) (i : nat)
    (sim : Simulation) (output : list (list string)) (c : Coords) (w : World) :
  l ≠ lc → aligner_ok →
  holds w l m → holds w lc mck →
  resolve_path (sdf_path (name m) (i + 1)) = None →
  ∃ w',
    report_step l lc (sim, output) (i, c) w = Raise FileError w'
    ∧ written w' = written w
    ∧ files w' = files w
    ∧ calls w' = calls w ++ step_calls c
    ∧ stdout w' = stdout w
    ∧ (∀ l', l' ≠ lc → heap w' !! l' = heap w !! l').
Proof.
  intros Hne Halign Hl Hlc Hfile.
  destruct (report_step_to_file l lc m mck i sim output c w Hne Halign Hl Hlc)
    as (rms & Hrms & ->).
  eexists. split.
  - erewrite bind_Raise; last by apply write_file_Raise. reflexivity.
  - flat. repeat split; try done.
    intros l' Hl'. by rewrite !lookup_insert_ne.
Qed.

(** The loop of lines 154-180 over the conformers [cs] when every structure
    file can be opened. *)
Lemma report_loop_Ok (l lc : loc) (m : Molecule) :
  l ≠ lc → aligner_ok →
  ∀ (cs : list Coords) (i : nat) (sim : Simulation)
    (output : list (list string)) (w : World) (mck : Molecule),
    holds w l m → holds w lc mck → name mck = name m →
    (∀ k, i < k ≤ i + length cs → is_Some (resolve_path (sdf_path (name m) k))) →
    ∃ rows ws lines w',
      for_loop (enumerate_from i cs) (report_step l lc) (sim, output) w
        = Ok (fold_left minimized cs sim, output ++ rows) w'
      ∧ loop_result (name m) (graph mck) i sim cs rows ws
      ∧ written w' = written w ++ ws
      ∧ files w' = apply_writes (files w) ws
      ∧ calls w' = calls w ++ concat (map step_calls cs)
      ∧ stdout w' = stdout w ++ lines
      ∧ Forall2 (same_conformer (n_conformers_of m)) rows lines
      ∧ (∀ l', l' ≠ lc → heap w' !! l' = heap w !! l')
      ∧ (∃ mc', holds w' lc mc' ∧ name mc' = name m ∧ graph mc' = graph mck).
Proof.
  intros Hne Halign.
  induction cs as [|c cs IH]; intros i sim output w mck Hl Hlc Hnm Hopen.
  - exists [], [], [], w. simpl. rewrite !app_nil_r.
    split; [done|]. split; [done|]. split; [done|]. split; [done|].
    split; [done|]. split; [done|]. split; [constructor|].
    split; [done|]. by exists mck.
  - destruct (Hopen (i + 1)) as [file Hfile]; [simpl; lia|].
    destruct (report_step_Ok l lc m mck i sim output c w file Hne Halign Hl Hlc Hfile)
      as (rms & w1 & Hstep & Hrms & Hwr1 & Hfs1 & Hcl1 & Hso1 & Hfr1 & Hlc1).
    destruct (IH (S i) (minimized sim c)
                (output ++ [energy_row (i + 1) sim c rms]) w1
                (minimized_mol (name mck) (graph mck) sim c))
      as (rows & ws & lines & w' & Hrun & Hres & Hwr & Hfs & Hcl & Hso & Hall
          & Hfr & mc' & Hlc' & Hn' & Hg');
      [unfold holds; by rewrite Hfr1|done|done| |].
    { intros k Hk. apply Hopen. simpl. lia. }
    rewrite Hnm in Hrms, Hwr1, Hfs1. simpl in Hres, Hg'.
    exists (energy_row (i + 1) sim c rms :: rows),
      ((sdf_path (name m) (i + 1),
        SdfFile (minimized_mol (name m) (graph mck) sim c)) :: ws),
      (fmt_progress (i + 1) (n_conformers_of m)
         (kcal_per_mole (getPotentialEnergy (setPositions sim c)))
         (kcal_per_mole (getPotentialEnergy (minimized sim c))) rms :: lines),
      w'.
    split; [|split; [|split; [|split; [|split; [|split; [|split; [|split]]]]]]].
    + simpl. erewrite bind_Ok; last exact Hstep.
      rewrite Hrun. by rewrite <- app_assoc.
    + simpl. split; [by exists rms|]. by split.
    + rewrite Hwr, Hwr1. by rewrite <- app_assoc.
    + rewrite Hfs, Hfs1. unfold apply_writes. cbn [fold_left]. f_equal.
      unfold apply_write. cbn [fst snd]. by rewrite Hfile.
    + rewrite Hcl, Hcl1. simpl. by rewrite <- app_assoc.
    + rewrite Hso, Hso1. by rewrite <- app_assoc.
    + constructor; [|done]. unfold energy_row. by eexists _, _, _, _.
    + intros l' Hl'. by rewrite Hfr, Hfr1.
    + by exists mc'.
Qed.

Lemma Molecule_copy_Ok l w m :
  holds w l m →
  Molecule_copy l w
  = Ok (fresh (dom (heap w)))
       (with_heap w (<[fresh (dom (heap w)) := m]> (heap w))).
Proof.
  intros Hl. unfold Molecule_copy.
  rewrite (bind_Ok _ _ _ _ _ (get_mol_Ok _ _ _ Hl)). reflexivity.
Qed.

Lemma fresh_loc_unused (h : gmap loc Molecule) : h !! fresh (dom h) = None.
Proof. apply not_elem_of_dom. apply is_fresh. Qed.

Lemma renamed_named m : name m ≠ "" → renamed m = m.
Proof.
  intros Hn. unfold renamed, report_name, set_name.
  destruct (decide (name m = "")); [done|]. by destruct m.
Qed.

(** Lines 136-137. *)
Lemma rename_Ok l m w :
  holds w l m →
  (if decide (name m = "")
   then put_mol l (set_name m (hill_formula (graph m)))
   else ret ()) w
  = Ok () (with_heap w (<[l := renamed m]> (heap w))).
Proof.
  intros Hl. unfold renamed, report_name.
  destruct (decide (name m = "")) as [Hn|Hn]; [reflexivity|].
  unfold ret. f_equal. destruct w as [h fs wr cl so]. unfold with_heap. simpl.
  f_equal. symmetry. apply insert_id. unfold holds in Hl. simpl in Hl.
  rewrite Hl. f_equal. by destruct m.
Qed.

(** Lines 136-153: the record is named, the working copy [lc] is made, the
    handle is created and three lines are printed; what is left to run is
    the loop over the conformers and the writing of the CSV file. *)
Lemma report_molecule_prelude (l : loc) (m : Molecule) (cs : list Coords) (w : World) :
  holds w l m → _conformers m = Some cs →
  ∃ lc w0,
    report_molecule l w
    = bind (for_loop (enumerate cs) (report_step l lc)
              (create_simulation (renamed m), [header]))
        (λ st,
          m <- get_mol l ;;
          write_file (csv_path (name m))
            (TextFile (concat_str (map csv_line st.2))) ;;;
          ret st.2) w0
    ∧ l ≠ lc
    ∧ heap w !! lc = None
    ∧ heap w0 = <[lc := renamed m]> (<[l := renamed m]> (heap w))
    ∧ files w0 = files w ∧ written w0 = written w ∧ calls w0 = calls w
    ∧ stdout w0 = stdout w ++
        [report_name m +:+ " : " +:+ pretty (length cs) +:+ " conformers";
         "Parametrizing " +:+ report_name m
           +:+ " (may take a moment to calculate charges)";
         "Conformer         Initial PE        Minimized PE        RMS between initial and minimized conformer"].
Proof.
  intros Hl Hcs.
  set (w1 := with_heap w (<[l := renamed m]> (heap w))).
  set (w2 := mkWorld (heap w1) (files w1) (written w1) (calls w1)
    (stdout w1 ++ [name (renamed m) +:+ " : "
       +:+ pretty (n_conformers_of (renamed m)) +:+ " conformers"])).
  set (lc := fresh (dom (heap w2))).
  set (w3 := with_heap w2 (<[lc := renamed m]> (heap w2))).
  assert (holds w1 l (renamed m)) as Hl1 by apply holds_insert_eq.
  assert (heap w2 !! lc = None) as Hlc2 by apply fresh_loc_unused.
  assert (l ≠ lc) as Hne.
  { intros Heq. rewrite <- Heq in Hlc2. unfold holds in Hl1.
    unfold w2 in Hlc2. simpl in Hlc2. by rewrite lookup_insert_eq in Hlc2. }
  assert (holds w3 l (renamed m)) as Hl3 by by apply holds_insert_ne.
  assert (n_conformers_of (renamed m) = length cs) as Hn.
  { unfold n_conformers_of. simpl. by rewrite Hcs. }
  exists lc,
    (mkWorld (heap w3) (files w3) (written w3) (calls w3)
       ((stdout w3 ++
         ["Parametrizing " +:+ name (renamed m)
          +:+ " (may take a moment to calculate charges)"]) ++
        ["Conformer         Initial PE        Minimized PE        RMS between initial and minimized conformer"])).
  split.
  - unfold report_molecule.
    erewrite bind_Ok; last by apply get_mol_Ok.
    erewrite bind_Ok; last by apply rename_Ok.
    erewrite bind_Ok; last by apply get_mol_Ok.
    erewrite bind_Ok; last reflexivity.
    erewrite bind_Ok; last by apply Molecule_copy_Ok.
    erewrite bind_Ok; last by apply get_mol_Ok.
    do 2 (erewrite bind_Ok; last reflexivity).
    erewrite bind_Ok; last by apply conformers_Ok.
    simpl _conformers. rewrite Hcs.
    erewrite bind_Ok; last reflexivity.
    reflexivity.
  - split; [done|]. split.
    { simpl in Hlc2. rewrite lookup_insert_ne in Hlc2; done. }
    split; [done|]. split; [done|]. split; [done|]. split; [done|].
    simpl. rewrite Hn. by rewrite <- !app_assoc.
Qed.

(** A report names its files after the name it gave the record. *)
Lemma report_name_renamed m : report_name (renamed m) = report_name m.
Proof.
  unfold renamed, report_name, set_name. simpl.
  destruct (decide (name m = "")) as [Hn|Hn]; simpl.
  - by destruct (decide (hill_formula (graph m) = "")) as [->|].
  - by destruct (decide (name m = "")).
Qed.

Lemma apply_writes_snoc fs ws pf :
  apply_writes fs (ws ++ [pf]) = apply_write (apply_writes fs ws) pf.
Proof. unfold apply_writes. by rewrite fold_left_app. Qed.

(** Lines 136-186 for one molecule with conformers [cs] when all the paths
    of its report can be opened: what is returned, written, called and
    printed, and what becomes of the store.  [lc] is the working copy of
    line 140. *)
Lemma report_molecule_Ok (l : loc) (m : Molecule) (cs : list Coords) (w : World) :
  aligner_ok → holds w l m → _conformers m = Some cs →
  paths_open (report_name m) (length cs) →
  ∃ rows ws lc mc' w',
    report_molecule l w = Ok (header :: rows) w'
    ∧ loop_result (report_name m) (graph m) 0
        (create_simulation (renamed m)) cs rows ws
    ∧ written w' = written w ++ ws ++
        [(csv_path (report_name m), TextFile (csv_text (header :: rows)))]
    ∧ files w' = apply_writes (files w)
        (ws ++ [(csv_path (report_name m), TextFile (csv_text (header :: rows)))])
    ∧ calls w' = calls w ++ concat (map step_calls cs)
    ∧ heap w !! lc = None
    ∧ holds w' l (renamed m)
    ∧ holds w' lc mc'
    ∧ (∀ l', l' ≠ l → l' ≠ lc → heap w' !! l' = heap w !! l')
    ∧ ∃ lines,
        stdout w' = stdout w ++
          [report_name m +:+ " : " +:+ pretty (length cs) +:+ " conformers";
           "Parametrizing " +:+ report_name m
             +:+ " (may take a moment to calculate charges)";
           "Conformer         Initial PE        Minimized PE        RMS between initial and minimized conformer"]
          ++ lines
        ∧ Forall2 (same_conformer (length cs)) rows lines.
Proof.
  intros Halign Hl Hcs [[csv_file Hcsv] Hsdf].
  destruct (report_molecule_prelude l m cs w Hl Hcs)
    as (lc & w0 & Hrun0 & Hne & Hnew & Hh0 & Hf0 & Hwr0 & Hcl0 & Hso0).
  assert (holds w0 l (renamed m)) as Hl0.
  { unfold holds. rewrite Hh0, lookup_insert_ne by done. apply lookup_insert_eq. }
  assert (holds w0 lc (renamed m)) as Hlc0.
  { unfold holds. rewrite Hh0. apply lookup_insert_eq. }
  assert (n_conformers_of (renamed m) = length cs) as Hn.
  { unfold n_conformers_of. simpl. by rewrite Hcs. }
  destruct (report_loop_Ok l lc (renamed m) Hne Halign cs 0
              (create_simulation (renamed m)) [header] w0 (renamed m))
    as (rows & ws & lines & w4 & Hrun & Hres & Hwr & Hfs & Hcl & Hso & Hall
        & Hfr & mc' & Hlc' & _);
    [exact Hl0|exact Hlc0|done| |].
  { intros k Hk. apply Hsdf. lia. }
  assert (holds w4 l (renamed m)) as Hl4.
  { unfold holds. rewrite Hfr; [exact Hl0|done]. }
  rewrite Hn in Hall.
  exists rows, ws, lc, mc'. eexists.
  split; [|split; [exact Hres|]].
  - rewrite Hrun0.
    erewrite bind_Ok; last exact Hrun.
    erewrite bind_Ok; last by apply get_mol_Ok.
    erewrite bind_Ok; last by apply write_file_Ok.
    reflexivity.
  - simpl. rewrite Hwr, Hfs, Hcl, Hwr0, Hf0, Hcl0.
    split; [by rewrite <- app_assoc|]. split.
    { rewrite apply_writes_snoc. unfold apply_write. cbn [fst snd].
      simpl name. by rewrite Hcsv. }
    split; [done|]. split; [done|]. split; [done|]. split; [done|].
    split.
    + intros l' Hl1' Hl2'. rewrite Hfr by done. rewrite Hh0.
      by rewrite !lookup_insert_ne.
    + exists lines. split; [|done]. rewrite Hso, Hso0.
      by rewrite <- !app_assoc.
Qed.

(** ** Strings of the report *)

Lemma count_char_app c s1 s2 :
  count_char c (s1 +:+ s2) = count_char c s1 + count_char c s2.
Proof. induction s1 as [|a s1 IH]; simpl; [done|]. rewrite IH. lia. Qed.

Lemma string_length_app s1 s2 :
  String.length (s1 +:+ s2) = String.length s1 + String.length s2.
Proof. induction s1 as [|a s1 IH]; simpl; [done|]. by rewrite IH. Qed.

Lemma string_app_inv_tail s1 s2 t : s1 +:+ t = s2 +:+ t → s1 = s2.
Proof.
  revert s2. induction s1 as [|a s1 IH]; intros [|b s2] Heq.
  - done.
  - apply (f_equal String.length) in Heq.
    rewrite !string_length_app in Heq. simpl in Heq. lia.
  - apply (f_equal String.length) in Heq.
    rewrite !string_length_app in Heq. simpl in Heq. lia.
  - simpl in Heq. injection Heq as -> Heq. f_equal. by apply IH.
Qed.

(** A decimal numeral holds digits only. *)
Lemma pretty_N_go_count c x s :
  (∀ d, pretty_N_char d ≠ c) →
  count_char c (pretty_N_go x s) = count_char c s.
Proof.
  intros Hc. revert s. induction (N.lt_wf_0 x) as [x _ IH]; intros s.
  destruct (decide (x = 0)%N) as [->|Hx]; [done|].
  rewrite pretty_N_go_step by lia.
  rewrite IH by (apply N.div_lt; lia). simpl.
  destruct (decide (pretty_N_char (x `mod` 10) = c)) as [Hd|_]; [|done].
  by apply Hc in Hd.
Qed.

Lemma pretty_nat_count c (n : nat) :
  (∀ d, pretty_N_char d ≠ c) → count_char c (pretty n) = 0.
Proof.
  intros Hc. unfold pretty, pretty_nat, pretty, pretty_N.
  destruct (decide (N.of_nat n = 0%N)).
  - simpl. destruct (decide ("0"%char = c)) as [<-|]; [|done].
    by destruct (Hc 0%N).
  - by rewrite pretty_N_go_count.
Qed.

Lemma digit_not_comma d : pretty_N_char d ≠ comma.
Proof. unfold pretty_N_char, comma. by repeat case_match. Qed.

Lemma digit_not_newline d : pretty_N_char d ≠ newline.
Proof. unfold pretty_N_char, newline. by repeat case_match. Qed.

Lemma sdf_path_inj nm i j : sdf_path nm i = sdf_path nm j → i = j.
Proof.
  unfold sdf_path. intros Heq.
  apply (inj (String.append nm)) in Heq.
  apply (inj (String.append "_conf")) in Heq.
  apply string_app_inv_tail in Heq. by apply (inj pretty) in Heq.
Qed.

Lemma sdf_path_not_csv nm i : sdf_path nm i ≠ csv_path nm.
Proof.
  unfold sdf_path, csv_path. intros Heq.
  apply (inj (String.append nm)) in Heq. discriminate.
Qed.

Lemma sdf_path_nonempty nm i : sdf_path nm i ≠ "".
Proof.
  unfold sdf_path. intros Heq. apply (f_equal String.length) in Heq.
  rewrite string_length_app in Heq. simpl in Heq. lia.
Qed.

Lemma csv_path_nonempty nm : csv_path nm ≠ "".
Proof.
  unfold csv_path. intros Heq. apply (f_equal String.length) in Heq.
  rewrite string_length_app in Heq. simpl in Heq. lia.
Qed.

(** ** What the loop result says about rows and files *)

Lemma loop_result_length nm g cs :
  ∀ i sim rows ws,
    loop_result nm g i sim cs rows ws →
    length rows = length cs ∧ length ws = length cs.
Proof.
  induction cs as [|c cs IH]; intros i sim [|row rows] [|wr ws] H;
    try done.
  destruct H as (_ & _ & H). apply IH in H as [Hr Hw]. simpl.
  by rewrite Hr, Hw.
Qed.

(** The [k]-th conformer is processed with the handle left by the [k]
    conformers before it. *)
Lemma loop_result_lookup nm g cs :
  ∀ i sim rows ws k c,
    loop_result nm g i sim cs rows ws →
    cs !! k = Some c →
    let sim_k := fold_left minimized (take k cs) sim in
    ∃ rms,
      head (AlignMolConformers (rdmol_of nm g sim_k c)) = Some rms
      ∧ rows !! k = Some (energy_row (i + k + 1) sim_k c rms)
      ∧ ws !! k = Some (sdf_path nm (i + k + 1),
                        SdfFile (minimized_mol nm g sim_k c)).
Proof.
  induction cs as [|c0 cs IH]; intros i sim [|row rows] [|wr ws] k c H Hk;
    try done.
  destruct H as ((rms & Hrms & ->) & -> & H).
  destruct k as [|k]; simpl in *.
  - injection Hk as <-. exists rms. by rewrite Nat.add_0_r.
  - destruct (IH _ _ _ _ k c H Hk) as (rms' & ? & ? & ?).
    exists rms'. replace (i + S k + 1) with (S i + k + 1) by lia. done.
Qed.

Lemma loop_result_paths nm g cs :
  ∀ i sim rows ws,
    loop_result nm g i sim cs rows ws →
    ws.*1 = sdf_path nm <$> seq (i + 1) (length cs).
Proof.
  induction cs as [|c cs IH]; intros i sim [|row rows] [|wr ws] H;
    try done.
  destruct H as (_ & -> & H). cbn [length seq]. rewrite !fmap_cons.
  cbn [fst]. f_equal.
  rewrite (IH _ _ _ _ H). by replace (S i + 1) with (S (i + 1)) by lia.
Qed.

Lemma loop_result_rows nm g cs :
  ∀ i sim rows ws,
    loop_result nm g i sim cs rows ws →
    Forall (λ row, ∃ (k : nat) e0 e1 rms,
              row = [pretty k; fmt3 e0; fmt3 e1; fmt3 rms]) rows.
Proof.
  induction cs as [|c cs IH]; intros i sim [|row rows] [|wr ws] H;
    try done.
  destruct H as ((rms & _ & ->) & _ & H). constructor; [|by eapply IH].
  unfold energy_row. by eexists _, _, _, _.
Qed.

Lemma loop_result_files nm g cs :
  ∀ i sim rows ws,
    loop_result nm g i sim cs rows ws →
    Forall (λ pf, ∃ mol c, pf.2 = SdfFile mol ∧ _conformers mol = Some [c]) ws.
Proof.
  induction cs as [|c cs IH]; intros i sim [|row rows] [|wr ws] H;
    try done.
  destruct H as (_ & -> & H). constructor; [|by eapply IH].
  by eexists _, _.
Qed.

Global Instance sdf_path_Inj nm : Inj (=) (=) (sdf_path nm).
Proof. intros i j. apply sdf_path_inj. Qed.

(** The paths written for one molecule are pairwise different. *)
Lemma report_paths_NoDup nm i n :
  NoDup ((sdf_path nm <$> seq i n) ++ [csv_path nm]).
Proof.
  apply NoDup_app. split; [apply NoDup_fmap_2, NoDup_seq; apply _|]. split.
  - intros p Hp Hcsv. apply list_elem_of_fmap in Hp as (j & -> & _).
    apply list_elem_of_singleton in Hcsv. by apply sdf_path_not_csv in Hcsv.
  - apply NoDup_singleton.
Qed.

(** A file that is written and not written again holds in the end what was
    written to it. *)
Lemma apply_writes_lookup (ws : list (string * File)) :
  ∀ fs k p f file,
    ws !! k = Some (p, f) → resolve_path p = Some file →
    (∀ j p' f', k < j → ws !! j = Some (p', f') → resolve_path p' ≠ Some file) →
    apply_writes fs ws !! file = Some f.
Proof.
  induction ws as [|[p0 f0] ws IH] using rev_ind;
    intros fs k p f file Hk Hp Hlater; [done|].
  rewrite apply_writes_snoc. unfold apply_write. cbn [fst snd].
  destruct (decide (k < length ws)) as [Hlt|Hge].
  - rewrite lookup_app_l in Hk by done.
    assert (resolve_path p0 ≠ Some file) as Hp0.
    { apply (Hlater (length ws) p0 f0); [done|]. by apply list_lookup_middle. }
    assert (apply_writes fs ws !! file = Some f) as Hin.
    { apply (IH fs k p f file Hk Hp). intros j p' f' Hj Hj'.
      apply (Hlater j p' f' Hj). by apply lookup_app_l_Some. }
    destruct (resolve_path p0) as [file0|]; [|done].
    rewrite lookup_insert_ne; [done|]. congruence.
  - rewrite lookup_app_r in Hk by lia.
    destruct (k - length ws) as [|?]; [|done]. injection Hk as -> ->.
    rewrite Hp. apply lookup_insert_eq.
Qed.

(** A file that no write names holds in the end what it held. *)
Lemma apply_writes_other (ws : list (string * File)) :
  ∀ fs file,
    (∀ p, p ∈ ws.*1 → resolve_path p ≠ Some file) →
    apply_writes fs ws !! file = fs !! file.
Proof.
  induction ws as [|[p0 f0] ws IH] using rev_ind; intros fs file Hp; [done|].
  rewrite apply_writes_snoc. unfold apply_write. cbn [fst snd].
  assert (resolve_path p0 ≠ Some file) as Hp0.
  { apply Hp. rewrite fmap_app. apply elem_of_app. right. by left. }
  assert (apply_writes fs ws !! file = fs !! file) as Hin.
  { apply IH. intros p Hin. apply Hp. rewrite fmap_app. apply elem_of_app.
    by left. }
  destruct (resolve_path p0) as [file0|]; [|done].
  rewrite lookup_insert_ne; [done|]. congruence.
Qed.

(** What a file that some write names holds in the end does not depend on
    what the file system held before. *)
Lemma apply_writes_covered (ws : list (string * File)) :
  ∀ fs fs' file,
    (∃ p, p ∈ ws.*1 ∧ resolve_path p = Some file) →
    is_Some (apply_writes fs ws !! file)
    ∧ apply_writes fs ws !! file = apply_writes fs' ws !! file.
Proof.
  induction ws as [|[p0 f0] ws IH] using rev_ind; intros fs fs' file (p & Hin & Hp).
  { by apply elem_of_nil in Hin. }
  rewrite !apply_writes_snoc. unfold apply_write. cbn [fst snd].
  rewrite fmap_app in Hin. apply elem_of_app in Hin as [Hin|Hin].
  - destruct (IH fs fs' file) as [Hsome Heq]; [by exists p|].
    destruct (resolve_path p0) as [file0|]; [|done].
    destruct (decide (file0 = file)) as [->|Hne].
    + rewrite !lookup_insert_eq. split; [by eexists|done].
    + by rewrite !lookup_insert_ne.
  - apply list_elem_of_singleton in Hin. simpl in Hin. subst p.
    rewrite Hp, !lookup_insert_eq. split; [by eexists|done].
Qed.

(** The writes of a report in their order: the structure files of the
    conformers 1, 2, ..., then the CSV file. *)
Lemma report_writes_lookup nm g cs sim rows ws csv_file j p f :
  loop_result nm g 0 sim cs rows ws →
  (ws ++ [(csv_path nm, csv_file)]) !! j = Some (p, f) →
  (j < length cs ∧ p = sdf_path nm (j + 1))
  ∨ (j = length cs ∧ p = csv_path nm).
Proof.
  intros Hres Hj.
  destruct (loop_result_length _ _ _ _ _ _ _ Hres) as [_ Hlen].
  pose proof (loop_result_paths _ _ _ _ _ _ _ Hres) as Hpaths.
  destruct (decide (j < length ws)) as [Hlt|Hge].
  - left. split; [lia|]. rewrite lookup_app_l in Hj by done.
    assert (ws.*1 !! j = Some p) as Hp by by rewrite list_lookup_fmap, Hj.
    rewrite Hpaths, list_lookup_fmap in Hp.
    rewrite lookup_seq_lt in Hp by lia. simpl in Hp. injection Hp as <-.
    f_equal. lia.
  - right. rewrite lookup_app_r in Hj by lia.
    destruct (j - length ws) as [|?] eqn:Hd; [|done].
    injection Hj as <- <-. split; [lia|done].
Qed.

(** When the paths of a report name pairwise different files, every
    structure file holds in the end what was written to it. *)
Lemma report_file_kept nm g cs sim rows ws csv_file fs k p f file :
  loop_result nm g 0 sim cs rows ws →
  paths_apart nm (length cs) →
  ws !! k = Some (p, f) → resolve_path p = Some file →
  apply_writes fs (ws ++ [(csv_path nm, csv_file)]) !! file = Some f.
Proof.
  intros Hres [Hsdf Hcsv] Hk Hp.
  assert ((ws ++ [(csv_path nm, csv_file)]) !! k = Some (p, f)) as Hk'
    by by apply lookup_app_l_Some.
  destruct (report_writes_lookup _ _ _ _ _ _ _ _ _ _ Hres Hk')
    as [[Hlt ->]|[Hlen _]].
  - apply (apply_writes_lookup _ fs k _ f file Hk' Hp).
    intros j p' f' Hj Hj' Hp'.
    destruct (report_writes_lookup _ _ _ _ _ _ _ _ _ _ Hres Hj')
      as [[Hjlt ->]|[_ ->]].
    + assert (j + 1 = k + 1); [|lia].
      apply Hsdf; [lia|lia|]. by rewrite Hp, Hp'.
    + apply (Hcsv (k + 1)); [lia|]. by rewrite Hp, Hp'.
  - destruct (loop_result_length _ _ _ _ _ _ _ Hres) as [_ Hlenw].
    apply lookup_lt_Some in Hk. lia.
Qed.

Lemma string_app_assoc s1 s2 s3 : (s1 +:+ s2) +:+ s3 = s1 +:+ (s2 +:+ s3).
Proof.
  induction s1 as [|x s1 IH]; [done|].
  change ((String x s1 +:+ s2) +:+ s3) with (String x ((s1 +:+ s2) +:+ s3)).
  by rewrite IH.
Qed.

Lemma csv_line_four a b c d :
  csv_line [a; b; c; d] = a +:+ "," +:+ b +:+ "," +:+ c +:+ "," +:+ d +:+ nl.
Proof.
  unfold csv_line. cbn [join]. by rewrite !string_app_assoc.
Qed.

Lemma csv_line_counts (k : nat) e0 e1 rms :
  plain_format →
  count_char comma (csv_line [pretty k; fmt3 e0; fmt3 e1; fmt3 rms]) = 3
  ∧ count_char newline (csv_line [pretty k; fmt3 e0; fmt3 e1; fmt3 rms]) = 1.
Proof.
  intros Hplain. rewrite csv_line_four. rewrite !count_char_app.
  rewrite (pretty_nat_count comma k digit_not_comma).
  rewrite (pretty_nat_count newline k digit_not_newline).
  destruct (Hplain e0) as [-> ->], (Hplain e1) as [-> ->],
    (Hplain rms) as [-> ->]. done.
Qed.

Lemma csv_text_newlines (rows : list (list string)) :
  Forall (λ row, count_char newline (csv_line row) = 1) rows →
  count_char newline (csv_text rows) = length rows.
Proof.
  unfold csv_text. induction 1 as [|row rows Hrow _ IH]; simpl; [done|].
  by rewrite count_char_app, Hrow, IH.
Qed.

(** ** Claims about the report generator *)

(** C4: for a record with conformers [cs] (N of them) whose report paths
    can be opened for writing, the report returns the header row and N rows
    whose first fields are the indices 1..N in order; it writes N structure
    files and then one CSV file, all at different paths; the file that the
    CSV path names holds the CSV text in the end; that text is the header
    line and one line per row, each row being four fields joined by single
    commas and ended by a line break, with nothing quoted or escaped: N+1
    line breaks in all and three commas in every data line. *)
Theorem report_rows_and_files
    (l : loc) (m : Molecule) (cs : list Coords) (w : World) :
  aligner_ok → plain_format →
  holds w l m → _conformers m = Some cs →
  paths_open (report_name m) (length cs) →
  ∃ rows sdf_writes text csv_file w',
    report_molecule l w = Ok (header :: rows) w'
    ∧ length rows = length cs
    ∧ (∀ k, k < length cs →
         ∃ e0 e1 rms,
           rows !! k = Some [pretty (k + 1); fmt3 e0; fmt3 e1; fmt3 rms])
    ∧ written w' = written w ++ sdf_writes ++
                   [(csv_path (report_name m), TextFile text)]
    ∧ length sdf_writes = length cs
    ∧ Forall (λ pf, ∃ mol, pf.2 = SdfFile mol) sdf_writes
    ∧ NoDup (sdf_writes.*1 ++ [csv_path (report_name m)])
    ∧ resolve_path (csv_path (report_name m)) = Some csv_file
    ∧ files w' !! csv_file = Some (TextFile text)
    ∧ text = concat_str (map (λ line, join "," line +:+ nl) (header :: rows))
    ∧ count_char newline text = length cs + 1
    ∧ Forall (λ row, ∃ a b c d,
                row = [a; b; c; d]
                ∧ csv_line row = a +:+ "," +:+ b +:+ "," +:+ c +:+ "," +:+ d +:+ nl
                ∧ count_char comma (csv_line row) = 3) rows.
Proof.
  intros Halign Hplain Hl Hcs Hopen.
  destruct (report_molecule_Ok l m cs w Halign Hl Hcs Hopen)
    as (rows & ws & lc & mc' & w' & Hrun & Hres & Hwr & Hfs & _).
  destruct Hopen as [[csv_file Hcsv] _].
  destruct (loop_result_length _ _ _ _ _ _ _ Hres) as [Hlen Hlenw].
  pose proof (loop_result_rows _ _ _ _ _ _ _ Hres) as Hrows.
  exists rows, ws, (csv_text (header :: rows)), csv_file, w'.
  split; [done|]. split; [done|]. split; [|split; [done|split; [done|]]].
  { intros k Hk. destruct (lookup_lt_is_Some_2 cs k Hk) as [c Hc].
    destruct (loop_result_lookup _ _ _ _ _ _ _ k c Hres Hc) as (rms & _ & Hrow & _).
    unfold energy_row in Hrow. by eexists _, _, _. }
  split; [|split; [|split; [done|split; [|split; [done|split]]]]].
  - eapply Forall_impl; [by eapply loop_result_files|].
    intros pf (mol & c & Hpf & _). by exists mol.
  - rewrite (loop_result_paths _ _ _ _ _ _ _ Hres). apply report_paths_NoDup.
  - rewrite Hfs, apply_writes_snoc. unfold apply_write. cbn [fst snd].
    rewrite Hcsv. apply lookup_insert_eq.
  - rewrite csv_text_newlines.
    + simpl. rewrite Hlen. lia.
    + constructor; [done|]. eapply Forall_impl; [exact Hrows|].
      intros row (k & e0 & e1 & rms & ->). by apply csv_line_counts.
  - eapply Forall_impl; [exact Hrows|].
    intros row (k & e0 & e1 & rms & ->). eexists _, _, _, _.
    split; [done|]. split; [apply csv_line_four|by apply csv_line_counts].
Qed.

(** C5: when the paths of the report can be opened for writing, the calls
    on the simulation handle are, for each conformer in turn, [setPositions]
    with its coordinates, the state query for the initial energy,
    [minimizeEnergy], and only then the state query for the minimised energy
    and positions; accordingly the initial energy reported for a conformer
    is the energy of the handle once its coordinates are loaded and before it
    is minimised, and the minimised energy is that of the handle after the
    minimisation. *)
Theorem report_call_order
    (l : loc) (m : Molecule) (cs : list Coords) (w : World) :
  aligner_ok → holds w l m → _conformers m = Some cs →
  paths_open (report_name m) (length cs) →
  ∃ output w',
    report_molecule l w = Ok output w'
    ∧ calls w' = calls w ++
        concat (map (λ c, [CallSetPositions c; CallGetState true false;
                           CallMinimizeEnergy; CallGetState true true]) cs)
    ∧ (∀ k c, cs !! k = Some c →
         let sim := fold_left (λ sim c, minimizeEnergy (setPositions sim c))
                      (take k cs) (create_simulation (renamed m)) in
         ∃ rms,
           output !! S k = Some
             [pretty (k + 1);
              fmt3 (kcal_per_mole (getPotentialEnergy (setPositions sim c)));
              fmt3 (kcal_per_mole
                      (getPotentialEnergy (minimizeEnergy (setPositions sim c))));
              fmt3 rms]).
Proof.
  intros Halign Hl Hcs Hopen.
  destruct (report_molecule_Ok l m cs w Halign Hl Hcs Hopen)
    as (rows & ws & lc & mc' & w' & Hrun & Hres & _ & _ & Hcl & _).
  exists (header :: rows), w'. split; [done|]. split; [done|].
  intros k c Hc.
  destruct (loop_result_lookup _ _ _ _ _ _ _ k c Hres Hc) as (rms & _ & Hrow & _).
  exists rms. exact Hrow.
Qed.

(** C6: when the paths of the report can be opened for writing, the
    record's name after the report is the hill formula when the declared name
    was empty and the declared name otherwise; every path written is built
    from that one name: the structure file of the conformer with 1-based
    index [k] is [<name>_conf<k>_minimized.sdf], the report is [<name>.csv],
    and no path is empty. *)
Theorem report_names_files
    (l : loc) (m : Molecule) (cs : list Coords) (w : World) :
  aligner_ok → holds w l m → _conformers m = Some cs →
  paths_open (report_name m) (length cs) →
  ∃ output ws w' m',
    report_molecule l w = Ok output w'
    ∧ holds w' l m'
    ∧ name m' = (if decide (name m = "") then hill_formula (graph m) else name m)
    ∧ written w' = written w ++ ws
    ∧ ws.*1 = ((λ k, name m' +:+ "_conf" +:+ pretty k +:+ "_minimized.sdf")
                 <$> seq 1 (length cs))
              ++ [name m' +:+ ".csv"]
    ∧ Forall (λ path, path ≠ "") ws.*1.
Proof.
  intros Halign Hl Hcs Hopen.
  destruct (report_molecule_Ok l m cs w Halign Hl Hcs Hopen)
    as (rows & ws & lc & mc' & w' & Hrun & Hres & Hwr & _ & _ & _ & Hl' & _).
  pose proof (loop_result_paths _ _ _ _ _ _ _ Hres) as Hpaths.
  exists (header :: rows),
    (ws ++ [(csv_path (report_name m), TextFile (csv_text (header :: rows)))]),
    w', (renamed m).
  split; [done|]. split; [done|]. split; [done|]. split; [done|].
  rewrite fmap_app, Hpaths. split; [done|].
  apply Forall_app. split.
  - apply Forall_fmap, Forall_forall. intros k _. apply sdf_path_nonempty.
  - repeat constructor. apply csv_path_nonempty.
Qed.

(** C9: when the paths of the report can be opened for writing, the
    structure file written for the conformer with index [k] holds exactly one
    conformer, the positions of the handle after the minimisation of that
    conformer; when moreover the paths of the report name pairwise different
    files, the file that its path names still holds it when the report is
    done. *)
Theorem report_file_holds_minimized
    (l : loc) (m : Molecule) (cs : list Coords) (w : World) :
  aligner_ok → holds w l m → _conformers m = Some cs →
  paths_open (report_name m) (length cs) →
  ∃ output sdf_writes csv_write w',
    report_molecule l w = Ok output w'
    ∧ written w' = written w ++ sdf_writes ++ [csv_write]
    ∧ length sdf_writes = length cs
    ∧ (∀ k c, cs !! k = Some c →
         let sim := fold_left (λ sim c, minimizeEnergy (setPositions sim c))
                      (take k cs) (create_simulation (renamed m)) in
         ∃ mol file,
           sdf_writes !! k
             = Some (sdf_path (report_name m) (k + 1), SdfFile mol)
           ∧ resolve_path (sdf_path (report_name m) (k + 1)) = Some file
           ∧ graph mol = graph m
           ∧ _conformers mol =
               Some [getPositions (minimizeEnergy (setPositions sim c))]
           ∧ (paths_apart (report_name m) (length cs) →
              files w' !! file = Some (SdfFile mol))).
Proof.
  intros Halign Hl Hcs Hopen.
  destruct (report_molecule_Ok l m cs w Halign Hl Hcs Hopen)
    as (rows & ws & lc & mc' & w' & Hrun & Hres & Hwr & Hfs & _).
  destruct (loop_result_length _ _ _ _ _ _ _ Hres) as [_ Hlenw].
  eexists _, ws, _, w'. split; [done|]. split; [done|]. split; [done|].
  intros k c Hc.
  destruct (loop_result_lookup _ _ _ _ _ _ _ k c Hres Hc) as (rms & _ & _ & Hw).
  destruct Hopen as [_ Hsdf].
  destruct (Hsdf (k + 1)) as [file Hfile].
  { apply lookup_lt_Some in Hc. lia. }
  eexists _, file. split; [exact Hw|]. split; [exact Hfile|].
  split; [done|]. split; [done|].
  intros Hapart. rewrite Hfs.
  by eapply report_file_kept.
Qed.

(** C10: when the paths of the report can be opened for writing, the
    working copy is a new object, absent from the store before the report;
    every object the store held before keeps its conformers and its graph,
    and every object other than the reported record and the working copy is
    untouched; in particular the reported record has the same conformer
    sequence before and after. *)
Theorem report_mutates_copy_only
    (l : loc) (m : Molecule) (cs : list Coords) (w : World) :
  aligner_ok → holds w l m → _conformers m = Some cs →
  paths_open (report_name m) (length cs) →
  ∃ output mol_copy w',
    report_molecule l w = Ok output w'
    ∧ heap w !! mol_copy = None
    ∧ is_Some (heap w' !! mol_copy)
    ∧ (∃ m', holds w' l m' ∧ _conformers m' = Some cs ∧ graph m' = graph m)
    ∧ (∀ l' m0, holds w l' m0 →
         ∃ m1, holds w' l' m1 ∧ _conformers m1 = _conformers m0
               ∧ graph m1 = graph m0)
    ∧ (∀ l', l' ≠ l → l' ≠ mol_copy → heap w' !! l' = heap w !! l').
Proof.
  intros Halign Hl Hcs Hopen.
  destruct (report_molecule_Ok l m cs w Halign Hl Hcs Hopen)
    as (rows & ws & lc & mc' & w' & Hrun & _ & _ & _ & _ & Hnew & Hl' & Hlc'
        & Hfr & _).
  exists (header :: rows), lc, w'.
  split; [done|]. split; [done|]. split; [by exists mc'|].
  split; [by exists (renamed m)|]. split; [|done].
  intros l' m0 Hl0. destruct (decide (l' = l)) as [->|Hne].
  - unfold holds in Hl, Hl0. rewrite Hl in Hl0. injection Hl0 as <-.
    by exists (renamed m).
  - exists m0. split; [|done]. unfold holds. rewrite Hfr; [done..|].
    intros ->. unfold holds in Hl0. congruence.
Qed.

(** ** The whole report cell *)

Lemma renamed_idem m : renamed (renamed m) = renamed m.
Proof.
  unfold renamed, report_name, set_name. simpl.
  destruct (decide (name m = "")) as [Hn|Hn]; simpl.
  - by destruct (decide (hill_formula (graph m) = "")) as [->|].
  - by destruct (decide (name m = "")).
Qed.

(** A record that the report can take can still be taken once it has been
    renamed. *)
Lemma reportable_renamed w l m :
  holds w l (renamed m) → is_Some (_conformers m) →
  paths_open (report_name m) (n_conformers_of m) →
  reportable w l (renamed m).
Proof.
  intros Hl Hc Hopen. split; [by split|]. by rewrite report_name_renamed.
Qed.

(** The report of one molecule names the reported record and leaves every
    other record of the store as it was. *)
Lemma report_molecule_frame l m w :
  aligner_ok → reportable w l m →
  ∃ output w',
    report_molecule l w = Ok output w'
    ∧ holds w' l (renamed m)
    ∧ (∀ l' m', l' ≠ l → holds w l' m' → holds w' l' m').
Proof.
  intros Halign [[Hl [cs Hcs]] Hopen].
  assert (n_conformers_of m = length cs) as Hn
    by (unfold n_conformers_of; by rewrite Hcs).
  rewrite Hn in Hopen.
  destruct (report_molecule_Ok l m cs w Halign Hl Hcs Hopen)
    as (rows & ws & lc & mc' & w' & Hrun & _ & _ & _ & _ & Hnew & Hl' & _
        & Hfr & _).
  exists (header :: rows), w'. split; [done|]. split; [done|].
  intros l' m' Hne Hl0. unfold holds. rewrite Hfr; [done..|].
  intros ->. unfold holds in Hl0. congruence.
Qed.

(** The loop of line 134 over all collated records: every reported record
    is named, and every other record of the store is left as it was. *)
Lemma report_cell_Ok (molecules : list loc) :
  aligner_ok →
  ∀ w,
    Forall (λ l, ∃ m, reportable w l m) molecules →
    ∃ w',
      report_cell molecules w = Ok () w'
      ∧ (∀ l m, holds w l m → l ∈ molecules → holds w' l (renamed m))
      ∧ (∀ l m, holds w l m → l ∉ molecules → holds w' l m).
Proof.
  intros Halign. unfold report_cell.
  induction molecules as [|l ls IH]; intros w Hall.
  - exists w. split; [done|]. split; [|done]. intros l m _ Hin.
    by apply elem_of_nil in Hin.
  - apply Forall_cons in Hall as [(m & Hrep) Hall].
    destruct (report_molecule_frame l m w Halign Hrep)
      as (output & w1 & Hrun & Hl1 & Hfr1).
    destruct Hrep as [[Hl Hc] Hopen].
    destruct (IH w1) as (w' & Hrest & Hin' & Hout').
    { eapply Forall_impl; [exact Hall|]. intros l' (m' & [[Hl' Hc'] Hopen']).
      destruct (decide (l' = l)) as [->|Hne].
      - unfold holds in Hl, Hl'. rewrite Hl in Hl'. injection Hl' as <-.
        exists (renamed m). by apply reportable_renamed.
      - exists m'. split; [split; [by apply Hfr1|done]|done]. }
    exists w'. split; [|split].
    + simpl. erewrite bind_Ok; last first.
      { erewrite bind_Ok; last exact Hrun. reflexivity. }
      exact Hrest.
    + intros l0 m0 Hl0 Hin. destruct (decide (l0 = l)) as [->|Hne].
      * unfold holds in Hl, Hl0. rewrite Hl in Hl0. injection Hl0 as <-.
        destruct (decide (l ∈ ls)) as [Hls|Hls].
        -- rewrite <- renamed_idem. by apply Hin'.
        -- by apply Hout'.
      * apply elem_of_cons in Hin as [->|Hin]; [done|].
        apply Hin'; [by apply Hfr1|done].
    + intros l0 m0 Hl0 Hout. apply not_elem_of_cons in Hout as [Hne Hout].
      apply Hout'; [by apply Hfr1|done].
Qed.

(** C7 (as amended): the report cell, run over collated records whose
    report paths can be opened for writing, leaves the graph and the
    conformers of every record of the store as they were; the one field it
    writes is the name, and only on a reported record whose declared name is
    empty, where it becomes the hill formula; a record with a non-empty name
    and a record that is not reported are left exactly as they were. *)
Theorem report_cell_writes_names_only (molecules : list loc) (w : World) :
  aligner_ok →
  Forall (λ l, ∃ m, reportable w l m) molecules →
  ∃ w',
    report_cell molecules w = Ok () w'
    ∧ (∀ l m, holds w l m →
         ∃ m', holds w' l m'
               ∧ graph m' = graph m
               ∧ _conformers m' = _conformers m
               ∧ (name m ≠ "" → m' = m)
               ∧ (l ∉ molecules → m' = m)
               ∧ (name m' = name m
                  ∨ (l ∈ molecules ∧ name m = ""
                     ∧ name m' = hill_formula (graph m))))
    ∧ (∀ l m, l ∈ molecules → holds w l m → name m = "" →
         holds w' l (set_name m (hill_formula (graph m)))).
Proof.
  intros Halign Hall.
  destruct (report_cell_Ok molecules Halign w Hall) as (w' & Hrun & Hin & Hout).
  exists w'. split; [done|]. split.
  - intros l m Hl. destruct (decide (l ∈ molecules)) as [Hl'|Hl'].
    + exists (renamed m). split; [by apply Hin|]. split; [done|].
      split; [done|]. split; [apply renamed_named|]. split; [done|].
      unfold renamed, report_name. simpl.
      destruct (decide (name m = "")); [by right|by left].
    + exists m. split; [by apply Hout|]. repeat split; try done. by left.
  - intros l m Hl Hm Hn. specialize (Hin l m Hm Hl).
    unfold renamed, report_name in Hin.
    by destruct (decide (name m = "")).
Qed.

End Proofs.

(** * Further properties of the two cells *)

Section Further.

Context {C : Collaborators}.

Local Abbreviation Molecule := (Molecule Graph Coords).

(** ** The collator *)

Lemma adjacent_distinct_from_snoc (gs : list Graph) :
  ∀ prev b,
    adjacent_distinct_from prev (gs ++ [b])
    = adjacent_distinct_from prev gs && negb (graph_eq b (default prev (last gs))).
Proof.
  induction gs as [|g gs IH]; intros prev b; simpl.
  - by rewrite andb_true_r.
  - rewrite IH, andb_assoc.
    replace (default prev (last (g :: gs))) with (default g (last gs));
      [done|].
    destruct gs as [|g0 gs]; [reflexivity|].
    change (last (g :: g0 :: gs)) with (last (g0 :: gs)).
    destruct (last (g0 :: gs)) eqn:Hlast; [done|].
    by apply last_None in Hlast.
Qed.

Lemma adjacent_distinct_snoc (gs : list Graph) (a b : Graph) :
  adjacent_distinct (gs ++ [a]) = true → graph_eq b a = false →
  adjacent_distinct ((gs ++ [a]) ++ [b]) = true.
Proof.
  intros Hgs Hb. destruct gs as [|g gs]; simpl in *.
  - by rewrite Hb.
  - rewrite adjacent_distinct_from_snoc, Hgs, last_snoc. simpl. by rewrite Hb.
Qed.

(** The pass never leaves two consecutive records that are structurally
    equal. *)
Lemma spec_collate_adjacent_distinct (rest : list Molecule) :
  ∀ dn current,
    adjacent_distinct (map graph (dn ++ [current])) = true →
    adjacent_distinct (map graph (spec_collate_from dn current rest)) = true.
Proof.
  induction rest as [|r rest IH]; intros dn current Hd; simpl; [done|].
  destruct (graph_eq (graph r) (graph current)) eqn:Heq.
  - apply IH. by rewrite map_app in *.
  - apply IH. rewrite map_app. simpl. rewrite map_app in Hd |- *.
    by apply adjacent_distinct_snoc.
Qed.

Lemma spec_collate_all_equal (rest : list Molecule) :
  ∀ current,
    is_Some (_conformers current) →
    Forall (λ r, graph_eq (graph r) (graph current) = true) rest →
    spec_collate_from [] current rest
    = [set_conformers current
         (Some (conformer_list current ++ concat (map conformer_list rest)))].
Proof.
  induction rest as [|r rest IH]; intros current [cs Hcs] Hall; simpl.
  - rewrite app_nil_r. unfold conformer_list. rewrite Hcs. simpl.
    destruct current; simpl in *; by subst.
  - apply Forall_cons in Hall as [Hr Hall]. rewrite Hr.
    rewrite IH; [|by eexists|done].
    unfold spec_merge, set_conformers, conformer_list. simpl.
    by rewrite <- app_assoc.
Qed.

(** The loop of lines 71-76 when no record equals the one before it. *)
Lemma collate_loop_distinct (rest : list loc) :
  ∀ (rs : list Molecule) (done : list loc) (cur_loc : loc) (cur : Molecule)
    (w : World),
    holds w cur_loc cur → Forall2 (holds w) rest rs →
    adjacent_distinct_from (graph cur) (map graph rs) = true →
    for_loop rest collate_step (done ++ [cur_loc]) w
    = Ok (done ++ cur_loc :: rest) w.
Proof.
  induction rest as [|r rest IH]; intros rs done cur_loc cur w Hcur Hrest Hd.
  - reflexivity.
  - apply Forall2_cons_inv_l in Hrest as (rv & rvs & Hr & Hrest & ->).
    simpl in Hd. apply andb_true_iff in Hd as [Hne Hd].
    apply negb_true_iff in Hne. simpl.
    erewrite bind_Ok; last by eapply collate_step_append.
    rewrite (IH rvs (done ++ [cur_loc]) r rv w Hr Hrest Hd).
    by rewrite <- app_assoc.
Qed.

Lemma grows_refl w : grows w w.
Proof. intros l m Hl. exists m. repeat split; try done. exists []. by rewrite app_nil_r. Qed.

Lemma grows_trans w1 w2 w3 : grows w1 w2 → grows w2 w3 → grows w1 w3.
Proof.
  intros H12 H23 l m Hl.
  destruct (H12 l m Hl) as (m2 & Hl2 & Hn2 & Hg2 & more2 & Hc2).
  destruct (H23 l m2 Hl2) as (m3 & Hl3 & Hn3 & Hg3 & more3 & Hc3).
  exists m3. split; [done|]. split; [congruence|]. split; [congruence|].
  exists (more2 ++ more3). by rewrite Hc3, Hc2, app_assoc.
Qed.

(** The loop of lines 71-76 writes to records of the output only, and only
    appends conformers to them. *)
Lemma collate_loop_grows (rest : list loc) :
  ∀ (rest_vals : list Molecule) (done : list loc) (cur_loc : loc)
    (cur : Molecule) (w : World),
    NoDup (done ++ cur_loc :: rest) →
    holds w cur_loc cur → is_Some (_conformers cur) →
    Forall2 (loaded_at w) rest rest_vals →
    ∃ out w',
      for_loop rest collate_step (done ++ [cur_loc]) w
        = Ok (done ++ cur_loc :: out) w'
      ∧ (∀ l, l ≠ cur_loc → l ∉ out → heap w' !! l = heap w !! l)
      ∧ grows w w'.
Proof.
  induction rest as [|r rest IH];
    intros rest_vals done cur_loc cur w Hnd Hcur Hcs Hrest.
  - exists [], w. split; [done|]. split; [done|apply grows_refl].
  - apply Forall2_cons_inv_l in Hrest as (rv & rvs & [Hr Hrcs] & Hrest & ->).
    apply NoDup_app in Hnd as (Hnd1 & Hnd2 & Hnd3).
    apply NoDup_cons in Hnd3 as [Hc1 Hnd3].
    apply NoDup_cons in Hnd3 as [Hr1 Hnd3].
    assert (r ≠ cur_loc) as Hne by (intros ->; apply Hc1; left).
    simpl. destruct (graph_eq (graph rv) (graph cur)) eqn:Heq.
    + destruct (collate_step_merge done cur_loc cur r rv w) as
        (w1 & Hstep & Hh1 & Hfr1 & Hio1); try done.
      erewrite bind_Ok; last exact Hstep.
      destruct (IH rvs done cur_loc (spec_merge cur rv) w1)
        as (out & w' & Hrun & Hfr & Hgr).
      * apply NoDup_app. split; [done|]. split.
        -- intros x Hx Hx'. apply (Hnd2 x Hx).
           apply elem_of_cons in Hx' as [->|Hx']; [left|by do 2 right].
        -- apply NoDup_cons. split; [|done].
           intros Hin. apply Hc1. by right.
      * done.
      * by eexists.
      * eapply Forall2_impl_elem; [exact Hrest|].
        intros l m Hl [Hm Hc]. split; [|done]. unfold holds.
        rewrite Hfr1; [done|]. intros ->. apply Hc1. by right.
      * exists out, w'. split; [done|]. split.
        -- intros l Hl1 Hl2. by rewrite Hfr, Hfr1.
        -- eapply grows_trans; [|exact Hgr].
           intros l m Hl. destruct (decide (l = cur_loc)) as [->|Hlc].
           ++ unfold holds in Hl, Hcur. rewrite Hcur in Hl. injection Hl as <-.
              exists (spec_merge cur rv). split; [done|].
              split; [done|]. split; [done|].
              exists (conformer_list rv).
              unfold spec_merge, conformer_list at 1. done.
           ++ exists m. split; [unfold holds; by rewrite Hfr1|].
              split; [done|]. split; [done|]. exists []. by rewrite app_nil_r.
    + erewrite bind_Ok; last by eapply collate_step_append.
      destruct (IH rvs (done ++ [cur_loc]) r rv w)
        as (out & w' & Hrun & Hfr & Hgr); try done.
      * rewrite <- app_assoc. simpl.
        apply NoDup_app. split; [done|]. split; [done|].
        apply NoDup_cons. split; [done|]. by apply NoDup_cons.
      * exists (r :: out), w'.
        replace (done ++ cur_loc :: r :: out)
          with ((done ++ [cur_loc]) ++ r :: out) by (by rewrite <- app_assoc).
        split; [done|]. split; [|done].
        intros l Hl1 Hl2. apply Hfr.
        -- intros ->. apply Hl2. left.
        -- intros Hin. apply Hl2. by right.
Qed.

(** X1: for any non-empty list of distinct loaded records that carry
    conformer lists of any length, the collation cell returns; the total it
    counts is the sum of the input records' conformer counts, the conformers
    of the output read in order are those of the input in order, there are at
    most as many output records as input records, the cell prints exactly
    its one summary line, and files and simulation calls are untouched. *)
Theorem collate_cell_counts_all_conformers
    (loaded_molecules : list loc) (records : list Molecule) (w : World) :
  loaded_molecules ≠ [] →
  NoDup loaded_molecules →
  Forall2 (loaded_at w) loaded_molecules records →
  ∃ molecules out_records w',
    collate_cell (MoleculeList loaded_molecules) w
      = Ok (molecules, length molecules,
            sum_list (map n_conformers_of records)) w'
    ∧ Forall2 (holds w') molecules out_records
    ∧ concat (map conformer_list out_records) = concat (map conformer_list records)
    ∧ length molecules ≤ length loaded_molecules
    ∧ stdout w' = stdout w ++
        [pretty (length molecules) +:+ " unique molecule(s) loaded, with "
         +:+ pretty (sum_list (map n_conformers_of records))
         +:+ " total conformers"]
    ∧ files w' = files w ∧ written w' = written w ∧ calls w' = calls w.
Proof.
  intros Hne Hnd Hall.
  destruct loaded_molecules as [|first rest]; [done|].
  destruct records as [|r0 rs]; [by apply Forall2_cons_nil_inv in Hall|].
  destruct (collate_refines first rest r0 rs w Hnd Hall)
    as (out & w' & Hrun & Hsub & Hout & _ & Hfs & Hwr & Hcl & Hso).
  assert (sum_list (map n_conformers_of (spec_collate r0 rs))
          = sum_list (map n_conformers_of (r0 :: rs))) as Hsum.
  { rewrite !sum_n_conformers_of_length. unfold spec_collate.
    by rewrite spec_collate_conformers. }
  eexists (first :: out), (spec_collate r0 rs),
    (mkWorld (heap w') (files w') (written w') (calls w') (stdout w' ++ [_])).
  split; [|split; [exact Hout|split; [|split; [|split]]]].
  - unfold collate_cell. cbn [cast_to_list].
    erewrite bind_Ok; last exact Hrun.
    erewrite bind_Ok; last by apply sum_n_conformers_Ok.
    rewrite Hsum. reflexivity.
  - unfold spec_collate. by rewrite spec_collate_conformers.
  - simpl. apply sublist_length in Hsub. lia.
  - cbn [stdout]. by rewrite Hso.
  - done.
Qed.

(** X2: no two consecutive records of the collator's output are
    structurally equal (tested as on line 72, the later against the
    earlier). *)
Theorem collate_output_adjacent_distinct
    (loaded_molecules : list loc) (records : list Molecule) (w : World) :
  loaded_molecules ≠ [] →
  NoDup loaded_molecules →
  Forall2 (loaded_at w) loaded_molecules records →
  ∃ molecules out_records w',
    collate loaded_molecules w = Ok molecules w'
    ∧ Forall2 (holds w') molecules out_records
    ∧ adjacent_distinct (map graph out_records) = true.
Proof.
  intros Hne Hnd Hall.
  destruct loaded_molecules as [|first rest]; [done|].
  destruct records as [|r0 rs]; [by apply Forall2_cons_nil_inv in Hall|].
  destruct (collate_refines first rest r0 rs w Hnd Hall)
    as (out & w' & Hrun & _ & Hout & _).
  exists (first :: out), (spec_collate r0 rs), w'.
  split; [done|]. split; [done|].
  by apply spec_collate_adjacent_distinct.
Qed.

(** X3: collating the collator's output again changes nothing: the second
    pass returns the same list and leaves the world as the first pass left
    it. *)
Theorem collate_twice
    (loaded_molecules : list loc) (records : list Molecule) (w : World) :
  loaded_molecules ≠ [] →
  NoDup loaded_molecules →
  Forall2 (loaded_at w) loaded_molecules records →
  ∃ molecules w',
    collate loaded_molecules w = Ok molecules w'
    ∧ collate molecules w' = Ok molecules w'.
Proof.
  intros Hne Hnd Hall.
  destruct loaded_molecules as [|first rest]; [done|].
  destruct records as [|r0 rs]; [by apply Forall2_cons_nil_inv in Hall|].
  destruct (collate_refines first rest r0 rs w Hnd Hall)
    as (out & w' & Hrun & _ & Hout & _).
  pose proof (spec_collate_adjacent_distinct rs [] r0 eq_refl) as Hd.
  fold (spec_collate r0 rs) in Hd.
  exists (first :: out), w'. split; [done|].
  apply Forall2_cons_inv_l in Hout as (m0 & ms & H0 & Hms & Heq).
  rewrite Heq in Hd. simpl in Hd.
  unfold collate. simpl. erewrite bind_Ok; last reflexivity. rewrite drop_0.
  exact (collate_loop_distinct out ms [] first m0 w' H0 Hms Hd).
Qed.

(** X4: when no record is structurally equal to the record just before
    it, the collator returns the input list as it is and changes nothing in
    the world; the records need not be distinct objects nor carry
    conformers. *)
Theorem collate_without_equal_neighbours
    (loaded_molecules : list loc) (records : list Molecule) (w : World) :
  loaded_molecules ≠ [] →
  Forall2 (holds w) loaded_molecules records →
  adjacent_distinct (map graph records) = true →
  collate loaded_molecules w = Ok loaded_molecules w.
Proof.
  intros Hne Hall Hd.
  destruct loaded_molecules as [|first rest]; [done|].
  apply Forall2_cons_inv_l in Hall as (r0 & rs & H0 & Hrs & ->).
  unfold collate. simpl. erewrite bind_Ok; last reflexivity. rewrite drop_0.
  exact (collate_loop_distinct rest rs [] first r0 w H0 Hrs Hd).
Qed.

(** X5: the collator writes to records of its output only, and all it does
    to a record is append conformers: every object outside the output list
    is afterwards exactly as before (a merged-away record keeps its own
    conformers), and every stored record keeps its name, its graph and its
    earlier conformers in order. *)
Theorem collate_only_appends
    (loaded_molecules : list loc) (records : list Molecule) (w : World) :
  loaded_molecules ≠ [] →
  NoDup loaded_molecules →
  Forall2 (loaded_at w) loaded_molecules records →
  ∃ molecules w',
    collate loaded_molecules w = Ok molecules w'
    ∧ (∀ l, l ∉ molecules → heap w' !! l = heap w !! l)
    ∧ (∀ l m, holds w l m →
         ∃ m', holds w' l m' ∧ name m' = name m ∧ graph m' = graph m
               ∧ ∃ more, conformer_list m' = conformer_list m ++ more).
Proof.
  intros Hne Hnd Hall.
  destruct loaded_molecules as [|first rest]; [done|].
  apply Forall2_cons_inv_l in Hall as (r0 & rs & [H0 Hc0] & Hrs & ->).
  destruct (collate_loop_grows rest rs [] first r0 w Hnd H0 Hc0 Hrs)
    as (out & w' & Hrun & Hfr & Hgr).
  exists (first :: out), w'. split; [|split; [|exact Hgr]].
  - unfold collate. simpl. erewrite bind_Ok; last reflexivity.
    rewrite drop_0. exact Hrun.
  - intros l Hl. apply Hfr.
    + intros ->. apply Hl. left.
    + intros Hin. apply Hl. by right.
Qed.

(** X6: when every loaded record is structurally equal to the first, as
    for a file holding the conformers of one molecule, the output is the
    first record alone, holding the conformers of all records in input
    order, with its name and graph. *)
Theorem collate_one_molecule
    (first : loc) (rest : list loc) (r0 : Molecule) (rs : list Molecule)
    (w : World) :
  NoDup (first :: rest) →
  Forall2 (loaded_at w) (first :: rest) (r0 :: rs) →
  Forall (λ r, graph_eq (graph r) (graph r0) = true) rs →
  ∃ w',
    collate (first :: rest) w = Ok [first] w'
    ∧ holds w' first
        (mkMolecule (name r0) (graph r0)
           (Some (conformer_list r0 ++ concat (map conformer_list rs)))).
Proof.
  intros Hnd Hall Heq.
  destruct (collate_refines first rest r0 rs w Hnd Hall)
    as (out & w' & Hrun & _ & Hout & _).
  apply Forall2_cons_1 in Hall as [[_ Hc0] _].
  unfold spec_collate in Hout.
  rewrite (spec_collate_all_equal rs r0 Hc0 Heq) in Hout.
  apply Forall2_cons_inv_r in Hout as (l0 & out' & Hh & Hnil & Hlist).
  apply Forall2_nil_inv_r in Hnil as ->. injection Hlist as <- <-.
  by exists w'.
Qed.

(** ** The report generator *)

(** The conformers, the name, the graph and the handle decide the rows and
    the files of the loop. *)
Lemma loop_result_functional nm g cs :
  ∀ i sim rows ws rows' ws',
    loop_result nm g i sim cs rows ws →
    loop_result nm g i sim cs rows' ws' →
    rows = rows' ∧ ws = ws'.
Proof.
  induction cs as [|c cs IH];
    intros i sim [|row rows] [|wr ws] [|row' rows'] [|wr' ws'] H H';
    try done.
  destruct H as ((rms & Hrms & ->) & -> & H).
  destruct H' as ((rms' & Hrms' & ->) & -> & H').
  rewrite Hrms in Hrms'. injection Hrms' as <-.
  by destruct (IH _ _ _ _ _ _ H H') as [-> ->].
Qed.

(** The paths of the writes of a report. *)
Lemma report_paths_elem nm g cs sim rows ws csv_file p :
  loop_result nm g 0 sim cs rows ws →
  p ∈ (ws ++ [(csv_path nm, csv_file)]).*1 →
  (∃ k, 1 ≤ k ≤ length cs ∧ p = sdf_path nm k) ∨ p = csv_path nm.
Proof.
  intros Hres Hin. rewrite fmap_app in Hin. apply elem_of_app in Hin as [Hin|Hin].
  - left. rewrite (loop_result_paths _ _ _ _ _ _ _ Hres) in Hin.
    apply list_elem_of_fmap in Hin as (k & -> & Hk).
    apply elem_of_seq in Hk. exists k. split; [lia|done].
  - right. by apply list_elem_of_singleton in Hin.
Qed.

(** X7: a report whose paths can be opened writes to the files that its
    own N+1 paths name and to no other: every other file of the file system
    holds afterwards what it held before. *)
Theorem report_touches_own_files_only
    (l : loc) (m : Molecule) (cs : list Coords) (w : World) :
  aligner_ok → holds w l m → _conformers m = Some cs →
  paths_open (report_name m) (length cs) →
  ∃ output w',
    report_molecule l w = Ok output w'
    ∧ ∀ file,
        resolve_path (csv_path (report_name m)) ≠ Some file →
        (∀ k, 1 ≤ k ≤ length cs →
           resolve_path (sdf_path (report_name m) k) ≠ Some file) →
        files w' !! file = files w !! file.
Proof.
  intros Halign Hl Hcs Hopen.
  destruct (report_molecule_Ok l m cs w Halign Hl Hcs Hopen)
    as (rows & ws & lc & mc' & w' & Hrun & Hres & _ & Hfs & _).
  exists (header :: rows), w'. split; [done|].
  intros file Hcsv Hsdf. rewrite Hfs.
  apply apply_writes_other. intros p Hin.
  destruct (report_paths_elem _ _ _ _ _ _ _ _ Hres Hin) as [(k & Hk & ->)| ->].
  - by apply Hsdf.
  - done.
Qed.

(** X8: in one file-system environment, what a report returns and writes
    depends on the reported record only: run on equal records whose report
    paths can be opened, in two worlds with any other objects, files and logs
    and at any two locations, it returns the same rows and makes the same
    writes and the same calls. *)
Theorem report_depends_on_record_only
    (l1 l2 : loc) (m : Molecule) (cs : list Coords) (w1 w2 : World) :
  aligner_ok → holds w1 l1 m → holds w2 l2 m → _conformers m = Some cs →
  paths_open (report_name m) (length cs) →
  ∃ output ws cl w1' w2',
    report_molecule l1 w1 = Ok output w1'
    ∧ report_molecule l2 w2 = Ok output w2'
    ∧ written w1' = written w1 ++ ws ∧ written w2' = written w2 ++ ws
    ∧ calls w1' = calls w1 ++ cl ∧ calls w2' = calls w2 ++ cl.
Proof.
  intros Halign H1 H2 Hcs Hopen.
  destruct (report_molecule_Ok l1 m cs w1 Halign H1 Hcs Hopen)
    as (rows1 & ws1 & lc1 & mc1 & w1' & Hrun1 & Hres1 & Hwr1 & _ & Hcl1 & _).
  destruct (report_molecule_Ok l2 m cs w2 Halign H2 Hcs Hopen)
    as (rows2 & ws2 & lc2 & mc2 & w2' & Hrun2 & Hres2 & Hwr2 & _ & Hcl2 & _).
  destruct (loop_result_functional _ _ _ _ _ _ _ _ _ Hres1 Hres2) as [<- <-].
  by eexists (header :: rows1), _, _, w1', w2'.
Qed.

(** ** The report cell and the whole notebook *)

Lemma sdf_writes_filter (ws : list (string * File)) :
  Forall (λ pf, ∃ mol c, pf.2 = SdfFile mol ∧ _conformers mol = Some [c]) ws →
  List.filter is_sdf ws = ws ∧ List.filter is_text ws = [].
Proof.
  induction 1 as [|[p f] ws (mol & c & Hpf & _) _ [IH1 IH2]]; [done|].
  simpl in Hpf. subst f. split.
  - change (List.filter is_sdf ((p, SdfFile mol) :: ws))
      with ((p, SdfFile mol) :: List.filter is_sdf ws). by rewrite IH1.
  - exact IH2.
Qed.

Lemma step_calls_length (cs : list Coords) :
  length (concat (map step_calls cs)) = 4 * length cs.
Proof. induction cs as [|c cs IH]; simpl; [done|]. rewrite IH. lia. Qed.

Lemma renamed_n_conformers (m : Molecule) :
  n_conformers_of (renamed m) = n_conformers_of m.
Proof. reflexivity. Qed.

(** The counts of files and calls of the report of one molecule. *)
Lemma report_molecule_totals (l : loc) (m : Molecule) (cs : list Coords) (w : World) :
  aligner_ok → holds w l m → _conformers m = Some cs →
  paths_open (report_name m) (length cs) →
  ∃ output new w',
    report_molecule l w = Ok output w'
    ∧ written w' = written w ++ new
    ∧ length (List.filter is_sdf new) = length cs
    ∧ length (List.filter is_text new) = 1
    ∧ length (calls w') = length (calls w) + 4 * length cs
    ∧ kept w w'.
Proof.
  intros Halign Hl Hcs Hopen.
  destruct (report_molecule_Ok l m cs w Halign Hl Hcs Hopen)
    as (rows & ws & lc & mc' & w' & Hrun & Hres & Hwr & _ & Hcl & Hnew & Hl'
        & _ & Hfr & _).
  destruct (loop_result_length _ _ _ _ _ _ _ Hres) as [_ Hlen].
  destruct (sdf_writes_filter ws (loop_result_files _ _ _ _ _ _ _ Hres))
    as [Hsdf Htext].
  eexists (header :: rows), _, w'. split; [done|]. split; [exact Hwr|].
  rewrite !List.filter_app, Hsdf, Htext. simpl.
  split; [rewrite length_app; simpl; lia|]. split; [done|].
  split; [by rewrite Hcl, length_app, step_calls_length|].
  intros l' m0 Hl0. destruct (decide (l' = l)) as [->|Hne].
  - unfold holds in Hl, Hl0. rewrite Hl in Hl0. injection Hl0 as <-. by right.
  - left. unfold holds. rewrite Hfr; [done..|].
    intros ->. unfold holds in Hl0. congruence.
Qed.

Lemma kept_reportable (w w' : World) (ls : list loc) (rs : list Molecule) :
  kept w w' → Forall2 (reportable w) ls rs →
  ∃ rs', Forall2 (reportable w') ls rs'
         ∧ map n_conformers_of rs' = map n_conformers_of rs.
Proof.
  intros Hk. induction 1 as [|l m ls rs [[Hl Hc] Hopen] _ (rs' & IH1 & IH2)].
  - by exists [].
  - destruct (Hk l m Hl) as [H|H].
    + exists (m :: rs'). split; [by constructor|]. simpl. by rewrite IH2.
    + exists (renamed m :: rs'). split.
      * constructor; [by apply reportable_renamed|done].
      * simpl. by rewrite IH2.
Qed.

(** The counts of files and calls of the loop of line 134. *)
Lemma report_cell_counts (molecules : list loc) :
  aligner_ok →
  ∀ (records : list Molecule) (w : World),
    Forall2 (reportable w) molecules records →
    ∃ new w',
      report_cell molecules w = Ok () w'
      ∧ written w' = written w ++ new
      ∧ length (List.filter is_sdf new) = sum_list (map n_conformers_of records)
      ∧ length (List.filter is_text new) = length molecules
      ∧ length (calls w')
        = length (calls w) + 4 * sum_list (map n_conformers_of records).
Proof.
  intros Halign. unfold report_cell.
  induction molecules as [|l ls IH]; intros records w Hall.
  - apply Forall2_nil_inv_l in Hall as ->. exists [], w. simpl.
    rewrite app_nil_r. repeat split; lia.
  - apply Forall2_cons_inv_l in Hall
      as (m & rs & [[Hl [cs Hcs]] Hopen] & Hrs & ->).
    assert (length (conformer_list m) = length cs) as Hlen
      by (unfold conformer_list; by rewrite Hcs).
    rewrite n_conformers_of_length, Hlen in Hopen.
    destruct (report_molecule_totals l m cs w Halign Hl Hcs Hopen)
      as (output & new1 & w1 & Hrun & Hwr1 & Hsdf1 & Htext1 & Hcl1 & Hk1).
    destruct (kept_reportable w w1 ls rs Hk1 Hrs) as (rs' & Hrs' & Hn).
    destruct (IH rs' w1 Hrs') as (new2 & w' & Hrest & Hwr2 & Hsdf2 & Htext2 & Hcl2).
    exists (new1 ++ new2), w'. split; [|split; [|split; [|split]]].
    + simpl. erewrite bind_Ok; last first.
      { erewrite bind_Ok; last exact Hrun. reflexivity. }
      exact Hrest.
    + by rewrite Hwr2, Hwr1, app_assoc.
    + rewrite List.filter_app, length_app, Hsdf1, Hsdf2, Hn. simpl.
      by rewrite n_conformers_of_length, Hlen.
    + rewrite List.filter_app, length_app, Htext1, Htext2. done.
    + rewrite Hcl2, Hcl1, Hn. simpl.
      rewrite (n_conformers_of_length m), Hlen. lia.
Qed.

(** X9: the report cell, run over collated records whose report paths can
    be opened, writes one structure file per conformer of every record and
    one CSV file per record, and makes four calls on a simulation handle per
    conformer. *)
Theorem report_cell_totals
    (molecules : list loc) (records : list Molecule) (w : World) :
  aligner_ok →
  Forall2 (reportable w) molecules records →
  ∃ new w',
    report_cell molecules w = Ok () w'
    ∧ written w' = written w ++ new
    ∧ length (List.filter is_sdf new) = sum_list (map n_conformers_of records)
    ∧ length (List.filter is_text new) = length molecules
    ∧ length (calls w')
      = length (calls w) + 4 * sum_list (map n_conformers_of records).
Proof. intros Halign Hall. by apply report_cell_counts. Qed.



Lemma name_open_paths_open nm n : name_open nm → paths_open nm n.
Proof. intros [Hcsv Hsdf]. split; [done|]. intros k _. apply Hsdf. Qed.



(** ** Files of records with one name *)

(** X11: what a report leaves in its files does not depend on what was
    reported before it.  When two collated records are reported one after
    the other and their report paths can be opened, the file that the CSV
    path of the later record names and the files that the structure-file
    paths of its conformers name hold, after the report cell, exactly what
    the report of the later record alone leaves there.  So when the earlier
    record has the same report name (records of one molecule that were not
    adjacent in the input), or a name whose paths name the same files, the
    report of the later one replaces the files of the earlier. *)
Theorem later_report_replaces_files
    (l1 l2 : loc) (m1 m2 : Molecule) (cs1 cs2 : list Coords) (w : World) :
  aligner_ok → l1 ≠ l2 →
  holds w l1 m1 → holds w l2 m2 →
  _conformers m1 = Some cs1 → _conformers m2 = Some cs2 →
  paths_open (report_name m1) (length cs1) →
  paths_open (report_name m2) (length cs2) →
  ∃ w' output2 w2 csv_file,
    report_cell [l1; l2] w = Ok () w'
    ∧ report_molecule l2 w = Ok output2 w2
    ∧ resolve_path (csv_path (report_name m2)) = Some csv_file
    ∧ files w' !! csv_file = Some (TextFile (csv_text output2))
    ∧ files w2 !! csv_file = Some (TextFile (csv_text output2))
    ∧ (∀ k, 1 ≤ k ≤ length cs2 →
         ∃ file,
           resolve_path (sdf_path (report_name m2) k) = Some file
           ∧ is_Some (files w2 !! file)
           ∧ files w' !! file = files w2 !! file)
    ∧ (resolve_path (csv_path (report_name m1))
         = resolve_path (csv_path (report_name m2)) →
       ∀ file, resolve_path (csv_path (report_name m1)) = Some file →
               files w' !! file = Some (TextFile (csv_text output2))).
Proof.
  intros Halign Hne H1 H2 Hcs1 Hcs2 Hopen1 Hopen2.
  destruct (report_molecule_Ok l1 m1 cs1 w Halign H1 Hcs1 Hopen1)
    as (rows1 & ws1 & lc1 & mc1 & w1 & Hrun1 & _ & _ & _ & _ & Hnew1 & _ & _
        & Hfr1 & _).
  assert (holds w1 l2 m2) as H2'.
  { unfold holds. rewrite Hfr1; [done|done|].
    intros ->. unfold holds in H2. congruence. }
  destruct (report_molecule_Ok l2 m2 cs2 w1 Halign H2' Hcs2 Hopen2)
    as (rows & ws & lc & mc & w' & Hrun & Hres & _ & Hfs & _).
  destruct (report_molecule_Ok l2 m2 cs2 w Halign H2 Hcs2 Hopen2)
    as (rows2 & ws2 & lc2 & mc2 & w2 & Hrun2 & Hres2 & _ & Hfs2 & _).
  destruct (loop_result_functional _ _ _ _ _ _ _ _ _ Hres Hres2) as [-> ->].
  destruct Hopen2 as [[csv_file Hcsv] Hsdf].
  assert (files w' !! csv_file = Some (TextFile (csv_text (header :: rows2))))
    as Hcsv'.
  { rewrite Hfs, apply_writes_snoc. unfold apply_write. cbn [fst snd].
    rewrite Hcsv. apply lookup_insert_eq. }
  exists w', (header :: rows2), w2, csv_file.
  split; [|split; [done|split; [done|split; [done|split; [|split]]]]].
  - unfold report_cell. simpl.
    erewrite bind_Ok; last first.
    { erewrite bind_Ok; last exact Hrun1. reflexivity. }
    erewrite bind_Ok; last first.
    { erewrite bind_Ok; last exact Hrun. reflexivity. }
    reflexivity.
  - rewrite Hfs2, apply_writes_snoc. unfold apply_write. cbn [fst snd].
    rewrite Hcsv. apply lookup_insert_eq.
  - intros k Hk. destruct (Hsdf k Hk) as [file Hfile].
    exists file. split; [done|]. rewrite Hfs, Hfs2.
    destruct (apply_writes_covered
                (ws2 ++ [(csv_path (report_name m2),
                          TextFile (csv_text (header :: rows2)))])
                (files w) (files w1) file) as [Hsome Heq].
    { exists (sdf_path (report_name m2) k). split; [|done].
      rewrite fmap_app. apply elem_of_app. left.
      rewrite (loop_result_paths _ _ _ _ _ _ _ Hres2).
      apply list_elem_of_fmap. exists k. split; [done|].
      apply elem_of_seq. lia. }
    split; [done|]. by rewrite Heq.
  - intros Hsame file Hfile. rewrite Hsame, Hcsv in Hfile.
    injection Hfile as <-. exact Hcsv'.
Qed.

(** ** The lines of the CSV file *)

Lemma comma_split_inj (s1 s2 t1 t2 : string) :
  count_char comma s1 = 0 → count_char comma s2 = 0 →
  s1 +:+ "," +:+ t1 = s2 +:+ "," +:+ t2 → s1 = s2 ∧ t1 = t2.
Proof.
  revert s2. induction s1 as [|a s1 IH]; intros [|b s2] H1 H2 Heq.
  - change (String ","%char t1 = String ","%char t2) in Heq.
    by injection Heq as ->.
  - exfalso.
    change (String ","%char t1 = String b (s2 +:+ "," +:+ t2)) in Heq.
    injection Heq as <- _. simpl in H2.
    by destruct (decide (","%char = comma)).
  - exfalso.
    change (String a (s1 +:+ "," +:+ t1) = String ","%char t2) in Heq.
    injection Heq as -> _. simpl in H1.
    by destruct (decide (","%char = comma)).
  - change (String a (s1 +:+ "," +:+ t1) = String b (s2 +:+ "," +:+ t2)) in Heq.
    injection Heq as -> Heq. simpl in H1, H2.
    destruct (IH s2) as [-> ->]; [lia|lia|done|done].
Qed.

(** X12: a line of the CSV file determines its row: two rows of four
    fields whose first three fields hold no comma, written as on line 184,
    give the same line only if they are the same row. *)
Theorem csv_line_determines_row (a b c d a' b' c' d' : string) :
  count_char comma a = 0 → count_char comma b = 0 → count_char comma c = 0 →
  count_char comma a' = 0 → count_char comma b' = 0 → count_char comma c' = 0 →
  csv_line [a; b; c; d] = csv_line [a'; b'; c'; d'] →
  [a; b; c; d] = [a'; b'; c'; d'].
Proof.
  intros Ha Hb Hc Ha' Hb' Hc' Heq. rewrite !csv_line_four in Heq.
  apply comma_split_inj in Heq as [-> Heq]; [|done..].
  apply comma_split_inj in Heq as [-> Heq]; [|done..].
  apply comma_split_inj in Heq as [-> Heq]; [|done..].
  by apply string_app_inv_tail in Heq as ->.
Qed.

(** ** What the report prints *)

(** X13: the report of a molecule whose report paths can be opened prints
    its summary line, the parametrising notice and the table header, then
    exactly one progress line per conformer; the k-th progress line shows the
    same index, energies and deviation as the k-th data row of the CSV
    report, out of the molecule's number of conformers. *)
Theorem report_prints_what_it_writes
    (l : loc) (m : Molecule) (cs : list Coords) (w : World) :
  aligner_ok → holds w l m → _conformers m = Some cs →
  paths_open (report_name m) (length cs) →
  ∃ rows lines w',
    report_molecule l w = Ok (header :: rows) w'
    ∧ stdout w' = stdout w ++
        [report_name m +:+ " : " +:+ pretty (length cs) +:+ " conformers";
         "Parametrizing " +:+ report_name m
           +:+ " (may take a moment to calculate charges)";
         "Conformer         Initial PE        Minimized PE        RMS between initial and minimized conformer"]
        ++ lines
    ∧ length lines = length cs
    ∧ Forall2 (same_conformer (length cs)) rows lines.
Proof.
  intros Halign Hl Hcs Hopen.
  destruct (report_molecule_Ok l m cs w Halign Hl Hcs Hopen)
    as (rows & ws & lc & mc' & w' & Hrun & Hres & _ & _ & _ & _ & _ & _ & _
        & lines & Hso & Hall).
  destruct (loop_result_length _ _ _ _ _ _ _ Hres) as [Hlen _].
  exists rows, lines, w'. split; [done|]. split; [done|]. split; [|done].
  apply Forall2_length in Hall. by rewrite <- Hall.
Qed.

(** ** A path that cannot be opened *)

(** The loop of lines 154-180 when the structure file of the conformer [c]
    that follows the conformers [cs] is the first that cannot be opened: it
    stops there, after the calls on the handle for [c]. *)
Lemma report_loop_Raise (l lc : loc) (m : Molecule) (c : Coords)
    (rest : list Coords) :
  l ≠ lc → aligner_ok →
  ∀ (cs : list Coords) (i : nat) (sim : Simulation)
    (output : list (list string)) (w : World) (mck : Molecule),
    holds w l m → holds w lc mck → name mck = name m →
    (∀ k, i < k ≤ i + length cs → is_Some (resolve_path (sdf_path (name m) k))) →
    resolve_path (sdf_path (name m) (i + length cs + 1)) = None →
    ∃ rows ws lines w',
      for_loop (enumerate_from i (cs ++ c :: rest)) (report_step l lc)
        (sim, output) w = Raise FileError w'
      ∧ loop_result (name m) (graph mck) i sim cs rows ws
      ∧ written w' = written w ++ ws
      ∧ files w' = apply_writes (files w) ws
      ∧ calls w' = calls w ++ concat (map step_calls (cs ++ [c]))
      ∧ stdout w' = stdout w ++ lines
      ∧ length lines = length cs
      ∧ (∀ l', l' ≠ lc → heap w' !! l' = heap w !! l').
Proof.
  intros Hne Halign.
  induction cs as [|c0 cs IH]; intros i sim output w mck Hl Hlc Hnm Hopen Hshut.
  - simpl in Hshut. rewrite Nat.add_0_r in Hshut.
    destruct (report_step_Raise l lc m mck i sim output c w Hne Halign Hl Hlc Hshut)
      as (w' & Hstep & Hwr & Hfs & Hcl & Hso & Hfr).
    exists [], [], [], w'. simpl. rewrite !app_nil_r.
    split; [by erewrite bind_Raise; last exact Hstep|].
    split; [done|]. split; [done|]. split; [done|]. split; [done|].
    split; [done|]. split; [done|]. done.
  - destruct (Hopen (i + 1)) as [file Hfile]; [simpl; lia|].
    destruct (report_step_Ok l lc m mck i sim output c0 w file Hne Halign Hl Hlc Hfile)
      as (rms & w1 & Hstep & Hrms & Hwr1 & Hfs1 & Hcl1 & Hso1 & Hfr1 & Hlc1).
    destruct (IH (S i) (minimized sim c0)
                (output ++ [energy_row (i + 1) sim c0 rms]) w1
                (minimized_mol (name mck) (graph mck) sim c0))
      as (rows & ws & lines & w' & Hrun & Hres & Hwr & Hfs & Hcl & Hso & Hlen
          & Hfr);
      [unfold holds; by rewrite Hfr1|done|done| | |].
    { intros k Hk. apply Hopen. simpl. lia. }
    { simpl in Hshut. by replace (S i + length cs + 1)
        with (i + S (length cs) + 1) by lia. }
    rewrite Hnm in Hrms, Hwr1, Hfs1. simpl in Hres.
    exists (energy_row (i + 1) sim c0 rms :: rows),
      ((sdf_path (name m) (i + 1),
        SdfFile (minimized_mol (name m) (graph mck) sim c0)) :: ws),
      (fmt_progress (i + 1) (n_conformers_of m)
         (kcal_per_mole (getPotentialEnergy (setPositions sim c0)))
         (kcal_per_mole (getPotentialEnergy (minimized sim c0))) rms :: lines),
      w'.
    split; [|split; [|split; [|split; [|split; [|split; [|split]]]]]].
    + simpl. erewrite bind_Ok; last exact Hstep. exact Hrun.
    + simpl. split; [by exists rms|]. by split.
    + rewrite Hwr, Hwr1. by rewrite <- app_assoc.
    + rewrite Hfs, Hfs1. unfold apply_writes. cbn [fold_left]. f_equal.
      unfold apply_write. cbn [fst snd]. by rewrite Hfile.
    + rewrite Hcl, Hcl1. simpl. by rewrite <- app_assoc.
    + rewrite Hso, Hso1. by rewrite <- app_assoc.
    + simpl. by rewrite Hlen.
    + intros l' Hl'. by rewrite Hfr, Hfr1.
Qed.

(** X14: when the structure file of a conformer is the first whose path
    cannot be opened for writing, the report of the molecule raises there,
    and with it the report cell, whatever records follow: the conformers
    before it have their structure files and progress lines, the handle has
    received the calls for the conformers up to it, no CSV file is written,
    and the record is already named. *)
Theorem report_stops_at_unopenable_structure_file
    (l : loc) (m : Molecule) (cs : list Coords) (c : Coords)
    (rest : list Coords) (ls : list loc) (w : World) :
  aligner_ok → holds w l m → _conformers m = Some (cs ++ c :: rest) →
  (∀ k, 1 ≤ k ≤ length cs →
     is_Some (resolve_path (sdf_path (report_name m) k))) →
  resolve_path (sdf_path (report_name m) (length cs + 1)) = None →
  ∃ ws lines w',
    report_molecule l w = Raise FileError w'
    ∧ report_cell (l :: ls) w = Raise FileError w'
    ∧ written w' = written w ++ ws
    ∧ ws.*1 = sdf_path (report_name m) <$> seq 1 (length cs)
    ∧ Forall (λ pf, ∃ mol, pf.2 = SdfFile mol) ws
    ∧ files w' = apply_writes (files w) ws
    ∧ calls w' = calls w ++ concat (map step_calls (cs ++ [c]))
    ∧ stdout w' = stdout w ++
        [report_name m +:+ " : " +:+ pretty (length (cs ++ c :: rest))
           +:+ " conformers";
         "Parametrizing " +:+ report_name m
           +:+ " (may take a moment to calculate charges)";
         "Conformer         Initial PE        Minimized PE        RMS between initial and minimized conformer"]
        ++ lines
    ∧ length lines = length cs
    ∧ holds w' l (renamed m)
    ∧ (∀ l' m', l' ≠ l → holds w l' m' → holds w' l' m').
Proof.
  intros Halign Hl Hcs Hopen Hshut.
  destruct (report_molecule_prelude l m _ w Hl Hcs)
    as (lc & w0 & Hrun0 & Hne & Hnew & Hh0 & Hf0 & Hwr0 & Hcl0 & Hso0).
  assert (holds w0 l (renamed m)) as Hl0.
  { unfold holds. rewrite Hh0, lookup_insert_ne by done. apply lookup_insert_eq. }
  assert (holds w0 lc (renamed m)) as Hlc0.
  { unfold holds. rewrite Hh0. apply lookup_insert_eq. }
  destruct (report_loop_Raise l lc (renamed m) c rest Hne Halign cs 0
              (create_simulation (renamed m)) [header] w0 (renamed m))
    as (rows & ws & lines & w' & Hrun & Hres & Hwr & Hfs & Hcl & Hso & Hlen & Hfr);
    [exact Hl0|exact Hlc0|done| |exact Hshut|].
  { intros k Hk. apply Hopen. lia. }
  assert (report_molecule l w = Raise FileError w') as Hraise.
  { rewrite Hrun0. by erewrite bind_Raise; last exact Hrun. }
  exists ws, lines, w'. split; [exact Hraise|]. split.
  { unfold report_cell. simpl.
    erewrite bind_Raise; [reflexivity|].
    by erewrite bind_Raise; last exact Hraise. }
  split; [by rewrite Hwr, Hwr0|].
  split; [exact (loop_result_paths _ _ _ _ _ _ _ Hres)|]. split.
  { eapply Forall_impl; [by eapply loop_result_files|].
    intros pf (mol & c' & Hpf & _). by exists mol. }
  split; [by rewrite Hfs, Hf0|]. split; [by rewrite Hcl, Hcl0|].
  split; [rewrite Hso, Hso0; by rewrite <- !app_assoc|]. split; [done|].
  split.
  - unfold holds. rewrite Hfr by done. exact Hl0.
  - intros l' m' Hl' Hm'. unfold holds. rewrite Hfr, Hh0.
    + by rewrite !lookup_insert_ne by (try done; intros ->; unfold holds in Hm'; congruence).
    + intros ->. unfold holds in Hm'. congruence.
Qed.

(** X15: when every structure file can be written and the path of the CSV
    file cannot be opened, the report of the molecule raises at the end, and
    with it the report cell, whatever records follow: all N structure files
    are written and all calls made, and the rows computed are written
    nowhere. *)
Theorem report_stops_at_unopenable_csv_file
    (l : loc) (m : Molecule) (cs : list Coords) (ls : list loc) (w : World) :
  aligner_ok → holds w l m → _conformers m = Some cs →
  (∀ k, 1 ≤ k ≤ length cs →
     is_Some (resolve_path (sdf_path (report_name m) k))) →
  resolve_path (csv_path (report_name m)) = None →
  ∃ ws w',
    report_molecule l w = Raise FileError w'
    ∧ report_cell (l :: ls) w = Raise FileError w'
    ∧ written w' = written w ++ ws
    ∧ ws.*1 = sdf_path (report_name m) <$> seq 1 (length cs)
    ∧ Forall (λ pf, ∃ mol, pf.2 = SdfFile mol) ws
    ∧ files w' = apply_writes (files w) ws
    ∧ calls w' = calls w ++ concat (map step_calls cs)
    ∧ holds w' l (renamed m).
Proof.
  intros Halign Hl Hcs Hopen Hshut.
  destruct (report_molecule_prelude l m _ w Hl Hcs)
    as (lc & w0 & Hrun0 & Hne & Hnew & Hh0 & Hf0 & Hwr0 & Hcl0 & Hso0).
  assert (holds w0 l (renamed m)) as Hl0.
  { unfold holds. rewrite Hh0, lookup_insert_ne by done. apply lookup_insert_eq. }
  assert (holds w0 lc (renamed m)) as Hlc0.
  { unfold holds. rewrite Hh0. apply lookup_insert_eq. }
  destruct (report_loop_Ok l lc (renamed m) Hne Halign cs 0
              (create_simulation (renamed m)) [header] w0 (renamed m))
    as (rows & ws & lines & w4 & Hrun & Hres & Hwr & Hfs & Hcl & Hso & Hall
        & Hfr & _);
    [exact Hl0|exact Hlc0|done| |].
  { intros k Hk. apply Hopen. lia. }
  assert (holds w4 l (renamed m)) as Hl4.
  { unfold holds. rewrite Hfr; [exact Hl0|done]. }
  assert (report_molecule l w = Raise FileError w4) as Hraise.
  { rewrite Hrun0.
    erewrite bind_Ok; last exact Hrun.
    erewrite bind_Ok; last by apply get_mol_Ok.
    by erewrite bind_Raise; last by apply write_file_Raise. }
  exists ws, w4. split; [exact Hraise|]. split.
  { unfold report_cell. simpl.
    erewrite bind_Raise; [reflexivity|].
    by erewrite bind_Raise; last exact Hraise. }
  split; [by rewrite Hwr, Hwr0|].
  split; [exact (loop_result_paths _ _ _ _ _ _ _ Hres)|]. split.
  { eapply Forall_impl; [by eapply loop_result_files|].
    intros pf (mol & c' & Hpf & _). by exists mol. }
  split; [by rewrite Hfs, Hf0|]. split; [by rewrite Hcl, Hcl0|]. done.
Qed.

End Further.

(** ** The double satisfies what the claims assume *)

Lemma dbl_aligner_ok : aligner_ok (C := dbl).
Proof.
  intros [nm g cs] a b Hc. simpl in Hc. subst cs. discriminate.
Qed.

Lemma dbl_plain_format : plain_format (C := dbl).
Proof.
  change (∀ x : nat, count_char comma (pretty x +:+ ".000") = 0
                     ∧ count_char newline (pretty x +:+ ".000") = 0).
  intros x. rewrite !count_char_app.
  rewrite (pretty_nat_count comma x digit_not_comma).
  by rewrite (pretty_nat_count newline x digit_not_newline).
Qed.

Lemma eqb_trans (a b c : nat) :
  Nat.eqb a b = true → Nat.eqb b c = true → Nat.eqb a c = true.
Proof. rewrite !Nat.eqb_eq. congruence. Qed.

Lemma NoDup_012 : NoDup [0; 1; 2].
Proof. by apply (bool_decide_unpack _). Qed.

Lemma digit_not_slash d : pretty_N_char d ≠ "/"%char.
Proof. unfold pretty_N_char. by repeat case_match. Qed.

(** In the double's directory a path without [/] that begins with none of
    [.], [l] and [h] names the file of that name. *)
Lemma dbl_resolve_open (a : ascii) (s : string) :
  a ≠ "."%char → a ≠ "l"%char → a ≠ "h"%char →
  count_char "/"%char (String a s) = 0 →
  dbl_resolve_path (String a s) = Some (String a s).
Proof.
  intros Hdot Hl Hh Hcount. unfold dbl_resolve_path.
  assert (strip_dot_slash (String a s) = String a s) as ->.
  { unfold strip_dot_slash. destruct s as [|b q]; [done|].
    destruct (decide (a = "."%char ∧ b = "/"%char)) as [[? _]|_]; done. }
  destruct (decide (String a s = "")) as [|_]; [done|].
  destruct (decide (String a s = "locked.csv")) as [Heq|_].
  { injection Heq as -> _. done. }
  destruct (decide (String a s = "half_conf2_minimized.sdf")) as [Heq|_].
  { injection Heq as -> _. done. }
  by destruct (decide (count_char "/"%char (String a s) = 0)).
Qed.

Lemma dbl_resolve_sdf (a : ascii) (s : string) (k : nat) :
  a ≠ "."%char → a ≠ "l"%char → a ≠ "h"%char →
  count_char "/"%char (String a s) = 0 →
  resolve_path (Collaborators := dbl) (sdf_path (String a s) k)
  = Some (sdf_path (String a s) k).
Proof.
  intros Hdot Hl Hh Hcount.
  change (dbl_resolve_path
            (String a (s +:+ "_conf" +:+ pretty k +:+ "_minimized.sdf"))
          = Some (String a (s +:+ "_conf" +:+ pretty k +:+ "_minimized.sdf"))).
  apply dbl_resolve_open; [done..|].
  change (count_char "/"%char
            (String a s +:+ "_conf" +:+ pretty k +:+ "_minimized.sdf") = 0).
  rewrite !count_char_app, Hcount.
  by rewrite (pretty_nat_count "/"%char k digit_not_slash).
Qed.

Lemma dbl_resolve_csv (a : ascii) (s : string) :
  a ≠ "."%char → a ≠ "l"%char → a ≠ "h"%char →
  count_char "/"%char (String a s) = 0 →
  resolve_path (Collaborators := dbl) (csv_path (String a s))
  = Some (csv_path (String a s)).
Proof.
  intros Hdot Hl Hh Hcount.
  change (dbl_resolve_path (String a (s +:+ ".csv"))
          = Some (String a (s +:+ ".csv"))).
  apply dbl_resolve_open; [done..|].
  change (count_char "/"%char (String a s +:+ ".csv") = 0).
  by rewrite count_char_app, Hcount.
Qed.

Lemma dbl_name_open (a : ascii) (s : string) :
  a ≠ "."%char → a ≠ "l"%char → a ≠ "h"%char →
  count_char "/"%char (String a s) = 0 →
  name_open (C := dbl) (String a s).
Proof.
  intros Hdot Hl Hh Hcount. split.
  - rewrite dbl_resolve_csv by done. by eexists.
  - intros k. rewrite dbl_resolve_sdf by done. by eexists.
Qed.

Lemma dbl_paths_open (a : ascii) (s : string) (n : nat) :
  a ≠ "."%char → a ≠ "l"%char → a ≠ "h"%char →
  count_char "/"%char (String a s) = 0 →
  paths_open (C := dbl) (String a s) n.
Proof. intros. apply name_open_paths_open. by apply dbl_name_open. Qed.

Lemma dbl_paths_apart (a : ascii) (s : string) (n : nat) :
  a ≠ "."%char → a ≠ "l"%char → a ≠ "h"%char →
  count_char "/"%char (String a s) = 0 →
  paths_apart (C := dbl) (String a s) n.
Proof.
  intros Hdot Hl Hh Hcount. split.
  - intros j k _ _. rewrite !dbl_resolve_sdf by done.
    intros Heq. injection Heq as Heq. exact (sdf_path_inj _ _ _ Heq).
  - intros k _. rewrite dbl_resolve_sdf, dbl_resolve_csv by done.
    intros Heq. injection Heq as Heq. exact (sdf_path_not_csv _ _ Heq).
Qed.

Lemma dbl_open_C7 : paths_open (C := dbl) "C7" 2.
Proof. by apply dbl_paths_open. Qed.

Lemma dbl_apart_C7 : paths_apart (C := dbl) "C7" 2.
Proof. by apply dbl_paths_apart. Qed.

Lemma dbl_open_A : name_open (C := dbl) "A".
Proof. by apply dbl_name_open. Qed.

Lemma dbl_open_M : name_open (C := dbl) "M".
Proof. by apply dbl_name_open. Qed.

Lemma dbl_open_N : name_open (C := dbl) "N".
Proof. by apply dbl_name_open. Qed.

Lemma reportable_unnamed : reportable world_unnamed 0 rec_unnamed.
Proof. split; [split; [reflexivity|by eexists]|exact dbl_open_C7]. Qed.

(** ** The claims at concrete inputs *)

Lemma collate_keeps_conformers_and_order_witness :
  ∃ molecules out_records (w' : World (C := dbl)),
    collate_cell (MoleculeList [0; 1; 2]) world_AAB
      = Ok (molecules, length molecules, 3) w'
    ∧ Forall2 (holds w') molecules out_records
    ∧ sum_list (map n_conformers_of out_records) = 3
    ∧ concat (map conformer_list out_records) = [10; 20; 30]
    ∧ sublist molecules [0; 1; 2]
    ∧ first_appearances (C := dbl) (map graph out_records) = [1; 2].
Proof.
  apply (collate_keeps_conformers_and_order (C := dbl) [0; 1; 2]
           [rec_A1; rec_A2; rec_B1] world_AAB).
  - discriminate.
  - exact NoDup_012.
  - repeat constructor.
  - repeat constructor; by eexists.
  - exact eqb_trans.
Defined.

Lemma collate_is_adjacent_pass_witness :
  (∃ molecules (w' : World (C := dbl)),
     collate [0; 1; 2] world_AAB = Ok molecules w'
     ∧ Forall2 (holds w') molecules (spec_collate (C := dbl) rec_A1 [rec_A2; rec_B1]))
  ∧ (∃ (w' : World (C := dbl)),
       collate [0; 1; 2] world_AAB = Ok [0; 2] w'
       ∧ holds w' 0 (mkMolecule "A" 1 (Some [10; 20]))
       ∧ holds w' 2 rec_B1)
  ∧ collate [0; 1; 2] world_ABA = Ok [0; 1; 2] world_ABA.
Proof.
  destruct (collate_is_adjacent_pass (C := dbl))
    as (Hpass & Hmerge & Hkeep).
  split; [|split].
  - destruct (Hpass 0 [1; 2] rec_A1 [rec_A2; rec_B1] world_AAB)
      as (molecules & w' & Hrun & Hout & _).
    + exact NoDup_012.
    + repeat constructor; by eexists.
    + by exists molecules, w'.
  - apply (Hmerge 0 1 2 rec_A1 rec_A2 rec_B1 10 20 30 world_AAB);
      try reflexivity.
    exact NoDup_012.
  - apply (Hkeep 0 1 2 rec_A1 rec_B1 rec_A2 world_ABA); reflexivity.
Defined.

Lemma report_rows_and_files_witness :
  holds world_unnamed 0 rec_unnamed
  ∧ paths_open (C := dbl) "C7" 2
  ∧ ∃ rows sdf_writes text (w' : World (C := dbl)),
      report_molecule 0 world_unnamed = Ok (header :: rows) w'
      ∧ length rows = 2
      ∧ written w' = sdf_writes ++ [("C7.csv", TextFile text)]
      ∧ length sdf_writes = 2
      ∧ NoDup (sdf_writes.*1 ++ ["C7.csv"])
      ∧ resolve_path (Collaborators := dbl) "C7.csv" = Some "C7.csv"
      ∧ files w' !! "C7.csv" = Some (TextFile text)
      ∧ count_char newline text = 3
      ∧ Forall (λ row, count_char comma (csv_line row) = 3) rows.
Proof.
  split; [reflexivity|]. split; [exact dbl_open_C7|].
  destruct (report_rows_and_files (C := dbl) 0 rec_unnamed [8; 6] world_unnamed
              dbl_aligner_ok dbl_plain_format eq_refl eq_refl dbl_open_C7)
    as (rows & sdf_writes & text & csv_file & w' & Hrun & Hlen & _ & Hwr & Hlenw
        & _ & Hnd & Hcsv & Hfs & _ & Hnl & Hrows).
  assert (Some "C7.csv" = Some csv_file) as Hfile by exact Hcsv.
  injection Hfile as <-.
  exists rows, sdf_writes, text, w'.
  split; [exact Hrun|]. split; [exact Hlen|]. split; [exact Hwr|].
  split; [exact Hlenw|]. split; [exact Hnd|]. split; [reflexivity|].
  split; [exact Hfs|]. split; [exact Hnl|].
  eapply Forall_impl; [exact Hrows|]. by intros row (a & b & c & d & _ & _ & Hc).
Defined.

Lemma report_call_order_witness :
  ∃ output (w' : World (C := dbl)),
    report_molecule 0 world_unnamed = Ok output w'
    ∧ calls w' = [CallSetPositions (C := dbl) 8; CallGetState true false;
                  CallMinimizeEnergy; CallGetState true true;
                  CallSetPositions (C := dbl) 6; CallGetState true false;
                  CallMinimizeEnergy; CallGetState true true]
    ∧ (∃ rms, output !! 2 = Some ["2"; "6.000"; "3.000"; fmt3 (Collaborators := dbl) rms]).
Proof.
  destruct (report_call_order (C := dbl) 0 rec_unnamed [8; 6] world_unnamed
              dbl_aligner_ok eq_refl eq_refl dbl_open_C7)
    as (output & w' & Hrun & Hcalls & Hrows).
  exists output, w'. split; [exact Hrun|]. split; [exact Hcalls|].
  exact (Hrows 1 6 eq_refl).
Defined.

Lemma report_names_files_witness :
  ∃ output ws w' m',
    report_molecule 0 world_unnamed = Ok output w'
    ∧ holds w' 0 m'
    ∧ name m' = "C7"
    ∧ written w' = ws
    ∧ ws.*1 = ["C7_conf1_minimized.sdf"; "C7_conf2_minimized.sdf"; "C7.csv"].
Proof.
  destruct (report_names_files (C := dbl) 0 rec_unnamed [8; 6] world_unnamed
              dbl_aligner_ok eq_refl eq_refl dbl_open_C7)
    as (output & ws & w' & m' & Hrun & Hm' & Hname & Hwr & Hpaths & _).
  exists output, ws, w', m'.
  split; [exact Hrun|]. split; [exact Hm'|]. split; [exact Hname|].
  split; [exact Hwr|]. rewrite Hpaths, Hname. reflexivity.
Defined.

Lemma report_file_holds_minimized_witness :
  ∃ output sdf_writes csv_write (w' : World (C := dbl)),
    report_molecule 0 world_unnamed = Ok output w'
    ∧ written w' = sdf_writes ++ [csv_write]
    ∧ length sdf_writes = 2
    ∧ (∃ mol,
         sdf_writes !! 1 = Some ("C7_conf2_minimized.sdf", SdfFile mol)
         ∧ files w' !! "C7_conf2_minimized.sdf" = Some (SdfFile mol)
         ∧ _conformers mol = Some [3]).
Proof.
  destruct (report_file_holds_minimized (C := dbl) 0 rec_unnamed [8; 6] world_unnamed
              dbl_aligner_ok eq_refl eq_refl dbl_open_C7)
    as (output & sdf_writes & csv_write & w' & Hrun & Hwr & Hlen & Hfiles).
  exists output, sdf_writes, csv_write, w'.
  split; [exact Hrun|]. split; [exact Hwr|]. split; [exact Hlen|].
  destruct (Hfiles 1 6 eq_refl) as (mol & file & Hk & Hres & _ & Hc & Hfs).
  assert (Some "C7_conf2_minimized.sdf" = Some file) as Hfile by exact Hres.
  injection Hfile as <-.
  exists mol. split; [exact Hk|]. split; [exact (Hfs dbl_apart_C7)|exact Hc].
Defined.

Lemma report_mutates_copy_only_witness :
  ∃ output mol_copy (w' : World (C := dbl)),
    report_molecule 0 world_unnamed = Ok output w'
    ∧ heap world_unnamed !! mol_copy = None
    ∧ is_Some (heap w' !! mol_copy)
    ∧ (∃ m', holds w' 0 m' ∧ _conformers m' = Some [8; 6] ∧ graph m' = 7).
Proof.
  destruct (report_mutates_copy_only (C := dbl) 0 rec_unnamed [8; 6] world_unnamed
              dbl_aligner_ok eq_refl eq_refl dbl_open_C7)
    as (output & mol_copy & w' & Hrun & Hnew & Hcopy & Hrec & _).
  exists output, mol_copy, w'.
  split; [exact Hrun|]. split; [exact Hnew|]. split; [exact Hcopy|exact Hrec].
Defined.

Lemma report_cell_writes_names_only_witness :
  ∃ (w' : World (C := dbl)),
    report_cell [2] world_other = Ok () w'
    ∧ holds w' 2 (mkMolecule "C7" 7 (Some [8; 6]))
    ∧ holds w' 0 rec_A1.
Proof.
  destruct (report_cell_writes_names_only (C := dbl) [2] world_other dbl_aligner_ok)
    as (w' & Hrun & Hall & Hnamed).
  - repeat constructor. exists rec_unnamed.
    split; [split; [reflexivity|by eexists]|exact dbl_open_C7].
  - exists w'. split; [exact Hrun|]. split.
    + apply (Hnamed 2 rec_unnamed); [left|reflexivity|reflexivity].
    + destruct (Hall 0 rec_A1 eq_refl) as (m' & Hm' & _ & _ & _ & Hout & _).
      rewrite Hout in Hm'; [exact Hm'|].
      intros Hin. apply list_elem_of_singleton in Hin. discriminate Hin.
Defined.

Lemma single_molecule_is_cast_to_list_witness :
  holds world_unnamed 0 rec_unnamed
  ∧ ∃ w' : World (C := dbl),
      stdout w' = ["1 unique molecule(s) loaded, with 2 total conformers"]
      ∧ heap w' = heap world_unnamed
      ∧ collate_cell (OneMolecule 0) world_unnamed = Ok ([0], 1, 2) w'
      ∧ collate_cell (MoleculeList [0]) world_unnamed = Ok ([0], 1, 2) w'
      ∧ notebook (OneMolecule 0) world_unnamed = report_cell [0] w'.
Proof.
  split; [reflexivity|].
  destruct (single_molecule_is_cast_to_list (C := dbl) 0 rec_unnamed
              world_unnamed eq_refl)
    as (w' & Hw' & _ & Hone & Hlist & Hbook & _).
  exists w'. split; [rewrite Hw'; reflexivity|].
  split; [rewrite Hw'; reflexivity|].
  split; [exact Hone|]. split; [exact Hlist|exact Hbook].
Defined.

(** ** Inputs at which a claim, as first stated, fails *)

(** C1 as first stated: on the empty input sequence the cell returns no
    output at all, so no output with zero conformers. *)
Lemma collate_cell_empty_no_output :
  ¬ ∃ result (w' : World (C := dbl)),
      collate_cell (MoleculeList [])
        (world_of ∅) = Ok result w'.
Proof. intros (result & w' & H). discriminate H. Qed.

(** C3 as first stated: the collator does not return the empty sequence on
    the empty input; it raises. *)
Lemma collate_empty_not_empty_output :
  collate [] (world_of ∅)
    = Raise IndexError (world_of ∅)
  ∧ ¬ ∃ (w' : World (C := dbl)), collate [] (world_of ∅)
            = Ok [] w'.
Proof. split; [reflexivity|]. intros (w' & H). discriminate H. Qed.

(** C7 as first stated: the report cell changes a collated record without
    a name. *)
Lemma report_cell_renames_record :
  ∃ (w' : World (C := dbl)),
    report_cell [0] world_unnamed = Ok () w'
    ∧ heap world_unnamed !! 0 = Some (mkMolecule "" 7 (Some [8; 6]))
    ∧ heap w' !! 0 = Some (mkMolecule "C7" 7 (Some [8; 6]))
    ∧ heap w' !! 0 ≠ heap world_unnamed !! 0.
Proof.
  destruct (report_cell_Ok (C := dbl) [0] dbl_aligner_ok world_unnamed)
    as (w' & Hrun & Hnamed & _).
  { repeat constructor. exists rec_unnamed. exact reportable_unnamed. }
  assert (holds w' 0 (renamed (C := dbl) rec_unnamed)) as H0.
  { apply Hnamed; [reflexivity|left]. }
  exists w'. split; [exact Hrun|]. split; [reflexivity|].
  unfold holds in H0. split; [exact H0|]. intros Heq.
  assert (Some (renamed (C := dbl) rec_unnamed) = Some rec_unnamed) as H
    by exact (eq_trans (eq_sym H0) Heq).
  vm_compute in H. discriminate H.
Qed.

(** ** The further properties at concrete inputs *)

Lemma loaded_multi :
  Forall2 (loaded_at world_multi) [0; 1; 2] [rec_M1; rec_M2; rec_N1].
Proof. repeat constructor; by eexists. Qed.

Lemma loaded_AAB :
  Forall2 (loaded_at world_AAB) [0; 1; 2] [rec_A1; rec_A2; rec_B1].
Proof. repeat constructor; by eexists. Qed.

Lemma collate_cell_counts_all_conformers_witness :
  ∃ molecules out_records (w' : World (C := dbl)),
    collate_cell (MoleculeList [0; 1; 2]) world_multi
      = Ok (molecules, length molecules, 6) w'
    ∧ Forall2 (holds w') molecules out_records
    ∧ concat (map conformer_list out_records) = [10; 11; 20; 30; 31; 32]
    ∧ length molecules ≤ 3.
Proof.
  destruct (collate_cell_counts_all_conformers (C := dbl) [0; 1; 2]
              [rec_M1; rec_M2; rec_N1] world_multi)
    as (molecules & out_records & w' & Hrun & Hout & Hconf & Hlen & _).
  - discriminate.
  - exact NoDup_012.
  - exact loaded_multi.
  - exists molecules, out_records, w'.
    split; [exact Hrun|]. split; [exact Hout|]. split; [exact Hconf|exact Hlen].
Defined.

Lemma collate_output_adjacent_distinct_witness :
  ∃ molecules out_records (w' : World (C := dbl)),
    collate [0; 1; 2] world_AAB = Ok molecules w'
    ∧ Forall2 (holds w') molecules out_records
    ∧ adjacent_distinct (C := dbl) (map graph out_records) = true.
Proof.
  apply (collate_output_adjacent_distinct (C := dbl) [0; 1; 2]
           [rec_A1; rec_A2; rec_B1] world_AAB).
  - discriminate.
  - exact NoDup_012.
  - exact loaded_AAB.
Defined.

Lemma collate_twice_witness :
  ∃ molecules (w' : World (C := dbl)),
    collate [0; 1; 2] world_AAB = Ok molecules w'
    ∧ collate molecules w' = Ok molecules w'.
Proof.
  apply (collate_twice (C := dbl) [0; 1; 2] [rec_A1; rec_A2; rec_B1] world_AAB).
  - discriminate.
  - exact NoDup_012.
  - exact loaded_AAB.
Defined.

Lemma collate_without_equal_neighbours_witness :
  collate [0; 1; 2] world_ABA = Ok [0; 1; 2] world_ABA.
Proof.
  apply (collate_without_equal_neighbours (C := dbl) [0; 1; 2]
           [rec_A1; rec_B1; rec_A2] world_ABA).
  - discriminate.
  - repeat constructor.
  - reflexivity.
Defined.

Lemma collate_only_appends_witness :
  ∃ molecules (w' : World (C := dbl)),
    collate [0; 1; 2] world_AAB = Ok molecules w'
    ∧ (1 ∉ molecules → heap w' !! 1 = Some rec_A2)
    ∧ (∃ m', holds w' 0 m' ∧ name m' = "A" ∧ graph m' = 1
             ∧ ∃ more, conformer_list m' = [10] ++ more).
Proof.
  destruct (collate_only_appends (C := dbl) [0; 1; 2]
              [rec_A1; rec_A2; rec_B1] world_AAB)
    as (molecules & w' & Hrun & Hframe & Hgrows).
  - discriminate.
  - exact NoDup_012.
  - exact loaded_AAB.
  - exists molecules, w'. split; [exact Hrun|]. split.
    + intros Hout. exact (Hframe 1 Hout).
    + exact (Hgrows 0 rec_A1 eq_refl).
Defined.

Lemma collate_one_molecule_witness :
  ∃ w' : World (C := dbl),
    collate [0; 1] world_AAB = Ok [0] w'
    ∧ holds w' 0 (mkMolecule "A" 1 (Some [10; 20])).
Proof.
  apply (collate_one_molecule (C := dbl) 0 [1] rec_A1 [rec_A2] world_AAB).
  - apply (bool_decide_unpack _). reflexivity.
  - repeat constructor; by eexists.
  - repeat constructor.
Defined.

Lemma report_touches_own_files_only_witness :
  ∃ output (w' : World (C := dbl)),
    report_molecule 2 world_other = Ok output w'
    ∧ files w' !! "notes.txt" = Some (TextFile "kept").
Proof.
  destruct (report_touches_own_files_only (C := dbl) 2 rec_unnamed [8; 6]
              world_other dbl_aligner_ok eq_refl eq_refl dbl_open_C7)
    as (output & w' & Hrun & Hother).
  exists output, w'. split; [exact Hrun|].
  rewrite (Hother "notes.txt").
  - reflexivity.
  - discriminate.
  - intros k Hk.
    change (resolve_path (Collaborators := dbl) (sdf_path "C7" k) ≠ Some "notes.txt").
    rewrite dbl_resolve_sdf by done.
    intros Heq. apply (inj Some) in Heq.
    apply (f_equal (λ s, String.get 0 s)) in Heq. discriminate Heq.
Defined.

Lemma report_depends_on_record_only_witness :
  ∃ output ws (w1' w2' : World (C := dbl)),
    report_molecule 0 world_unnamed = Ok output w1'
    ∧ report_molecule 2 world_other = Ok output w2'
    ∧ written w1' = ws ∧ written w2' = ws.
Proof.
  destruct (report_depends_on_record_only (C := dbl) 0 2 rec_unnamed [8; 6]
              world_unnamed world_other dbl_aligner_ok eq_refl eq_refl eq_refl
              dbl_open_C7)
    as (output & ws & cl & w1' & w2' & Hrun1 & Hrun2 & Hwr1 & Hwr2 & _).
  exists output, ws, w1', w2'.
  split; [exact Hrun1|]. split; [exact Hrun2|]. split; [exact Hwr1|exact Hwr2].
Defined.

Lemma report_cell_totals_witness :
  ∃ new (w' : World (C := dbl)),
    report_cell [0; 2] world_multi = Ok () w'
    ∧ written w' = new
    ∧ length (List.filter is_sdf new) = 5
    ∧ length (List.filter is_text new) = 2
    ∧ length (calls w') = 20.
Proof.
  destruct (report_cell_totals (C := dbl) [0; 2] [rec_M1; rec_N1] world_multi
              dbl_aligner_ok)
    as (new & w' & Hrun & Hwr & Hsdf & Htext & Hcalls).
  - constructor; [|constructor; [|constructor]].
    + split; [split; [reflexivity|by eexists]|].
      exact (name_open_paths_open (C := dbl) "M" 2 dbl_open_M).
    + split; [split; [reflexivity|by eexists]|].
      exact (name_open_paths_open (C := dbl) "N" 3 dbl_open_N).
  - exists new, w'. split; [exact Hrun|]. split; [exact Hwr|].
    split; [exact Hsdf|]. split; [exact Htext|exact Hcalls].
Defined.


Lemma later_report_replaces_files_witness :
  resolve_path (Collaborators := dbl) "./A.csv" = Some "A.csv"
  ∧ resolve_path (Collaborators := dbl) "A.csv" = Some "A.csv"
  ∧ ∃ (w' : World (C := dbl)) output2 (w2 : World (C := dbl)),
      report_cell [0; 2] world_alias = Ok () w'
      ∧ report_molecule 2 world_alias = Ok output2 w2
      ∧ files w' !! "A.csv" = Some (TextFile (csv_text output2))
      ∧ is_Some (files w2 !! "A_conf1_minimized.sdf")
      ∧ files w' !! "A_conf1_minimized.sdf" = files w2 !! "A_conf1_minimized.sdf".
Proof.
  split; [reflexivity|]. split; [reflexivity|].
  destruct (later_report_replaces_files (C := dbl) 0 2 rec_dot_A rec_A2 [10] [20]
              world_alias dbl_aligner_ok)
    as (w' & output2 & w2 & csv_file & Hcell & Hrun & Hres & _ & _ & Hsdf & Hcsv);
    [discriminate|reflexivity..| | |].
  - split; [by eexists|]. intros k Hk.
    assert (k = 1) as -> by (simpl in Hk; lia). by eexists.
  - exact (name_open_paths_open (C := dbl) "A" 1 dbl_open_A).
  - destruct (Hsdf 1 (conj (le_n 1) (le_n 1))) as (file & Hfile & Hsome & Heq).
    assert (Some "A_conf1_minimized.sdf" = Some file) as Hfile' by exact Hfile.
    injection Hfile' as <-.
    exists w', output2, w2. split; [exact Hcell|]. split; [exact Hrun|].
    split; [exact (Hcsv eq_refl "A.csv" eq_refl)|].
    split; [exact Hsome|exact Heq].
Defined.

Lemma csv_line_determines_row_witness :
  csv_line ["1"; "8.000"; "4.000"; "4.000"] = csv_line ["1"; "8.000"; "4.000"; "4.000"]
  ∧ ["1"; "8.000"; "4.000"; "4.000"] = ["1"; "8.000"; "4.000"; "4.000"].
Proof.
  split; [reflexivity|].
  apply (csv_line_determines_row "1" "8.000" "4.000" "4.000"
           "1" "8.000" "4.000" "4.000"); reflexivity.
Defined.

Lemma report_prints_what_it_writes_witness :
  ∃ rows lines (w' : World (C := dbl)),
    report_molecule 2 world_other = Ok (header :: rows) w'
    ∧ stdout w' = ["earlier output"; "C7 : 2 conformers";
                   "Parametrizing C7 (may take a moment to calculate charges)";
                   "Conformer         Initial PE        Minimized PE        RMS between initial and minimized conformer"]
                  ++ lines
    ∧ length lines = 2.
Proof.
  destruct (report_prints_what_it_writes (C := dbl) 2 rec_unnamed [8; 6]
              world_other dbl_aligner_ok eq_refl eq_refl dbl_open_C7)
    as (rows & lines & w' & Hrun & Hso & Hlen & _).
  exists rows, lines, w'. split; [exact Hrun|]. split; [exact Hso|exact Hlen].
Defined.

Lemma report_stops_at_unopenable_structure_file_witness :
  resolve_path (Collaborators := dbl) "half_conf1_minimized.sdf"
    = Some "half_conf1_minimized.sdf"
  ∧ resolve_path (Collaborators := dbl) "half_conf2_minimized.sdf" = None
  ∧ ∃ ws lines (w' : World (C := dbl)),
      report_molecule 0 world_shut = Raise FileError w'
      ∧ report_cell [0; 2] world_shut = Raise FileError w'
      ∧ written w' = ws
      ∧ ws.*1 = ["half_conf1_minimized.sdf"]
      ∧ calls w' = [CallSetPositions (C := dbl) 10; CallGetState true false;
                    CallMinimizeEnergy; CallGetState true true;
                    CallSetPositions (C := dbl) 20; CallGetState true false;
                    CallMinimizeEnergy; CallGetState true true]
      ∧ length lines = 1
      ∧ stdout w' = ["half : 3 conformers";
                     "Parametrizing half (may take a moment to calculate charges)";
                     "Conformer         Initial PE        Minimized PE        RMS between initial and minimized conformer"]
                    ++ lines
      ∧ holds w' 2 rec_B1.
Proof.
  split; [reflexivity|]. split; [reflexivity|].
  destruct (report_stops_at_unopenable_structure_file (C := dbl) 0 rec_half
              [10] 20 [30] [2] world_shut dbl_aligner_ok eq_refl eq_refl)
    as (ws & lines & w' & Hrun & Hcell & Hwr & Hpaths & _ & _ & Hcalls & Hso
        & Hlen & _ & Hframe).
  - intros k Hk. assert (k = 1) as -> by (simpl in Hk; lia).
    exists "half_conf1_minimized.sdf". reflexivity.
  - reflexivity.
  - exists ws, lines, w'. split; [exact Hrun|]. split; [exact Hcell|].
    split; [exact Hwr|]. split; [exact Hpaths|]. split; [exact Hcalls|].
    split; [exact Hlen|]. split; [exact Hso|].
    apply Hframe; [discriminate|reflexivity].
Defined.

Lemma report_stops_at_unopenable_csv_file_witness :
  resolve_path (Collaborators := dbl) "locked.csv" = None
  ∧ ∃ ws (w' : World (C := dbl)),
      report_molecule 1 world_shut = Raise FileError w'
      ∧ report_cell [1; 2] world_shut = Raise FileError w'
      ∧ written w' = ws
      ∧ ws.*1 = ["locked_conf1_minimized.sdf"; "locked_conf2_minimized.sdf"]
      ∧ length (calls w') = 8.
Proof.
  split; [reflexivity|].
  destruct (report_stops_at_unopenable_csv_file (C := dbl) 1 rec_locked
              [10; 20] [2] world_shut dbl_aligner_ok eq_refl eq_refl)
    as (ws & w' & Hrun & Hcell & Hwr & Hpaths & _ & _ & Hcalls & _).
  - intros k Hk. assert (k = 1 ∨ k = 2) as [-> | ->] by (simpl in Hk; lia).
    + exists "locked_conf1_minimized.sdf". reflexivity.
    + exists "locked_conf2_minimized.sdf". reflexivity.
  - reflexivity.
  - exists ws, w'. split; [exact Hrun|]. split; [exact Hcell|].
    split; [exact Hwr|]. split; [exact Hpaths|]. by rewrite Hcalls.
Defined.
